(** * Dipolar fibrils: the notebooks' helper functions, embedded and verified

    Sources embedded here:
    - [notebook.ipynb]: [makeAtomEntry], [makeDipoleEntry],
      [makeMonopoleFibril], [makeDipoleFibril], [calcPotential];
    - [monte-carlo-evaporation/evaporation.ipynb]: [getBareDipoleMoment],
      [getSystemDipoleMoment], [systemDipoleMomentVector],
      [systemDipoleAlignment].

    The Python code is written once, over an interface [Arith] of the
    arithmetic it uses, and read at two instances:
    - [Binary64]: IEEE 754 binary64 ([PrimFloat]), the numbers Python and
      numpy compute with; every definition runs there;
    - [Exact]: the real numbers, the rounding-free reading in which
      the identities of the specification are stated.

    Mutable Python objects are explicit: numpy arrays bound to a name live in
    a heap of references, and the notebook's module-level list
    [global_position_storage] is a component of the state.

    The file has the definitions first (the code, the two arithmetics, the
    shapes and inputs the statements use) and the theorems after them. *)

From Stdlib Require Import ZArith List Floats Reals Lra Lia String QArith Qabs.
From stdpp Require Import gmap strings.
Import ListNotations.

Set Default Proof Using "Type".

(** A decimal float literal denotes the nearest binary64 number, as in Python. *)
Set Warnings "-inexact-float".
Set Warnings "-register-all".

(** ** Arithmetic interface *)

Class Arith (F : Type) := {
  fadd : F -> F -> F;
  fsub : F -> F -> F;
  fmul : F -> F -> F;
  fdiv : F -> F -> F;
  fneg : F -> F;
  fsqrt : F -> F;
  fabs : F -> F;
  (** Python's [a < b], [a >= b] and [a == b] on floats *)
  flt : F -> F -> bool;
  fge : F -> F -> bool;
  feq : F -> F -> bool;
  (** numpy's [isfinite] and [isnan] *)
  fisfinite : F -> bool;
  fisnan : F -> bool;
  (** conversion of a Python [int] met by a float operation *)
  of_int : Z -> F;
  (** the literals [0.0], [1.0], [2.0] and [0.2081943] *)
  lit_0 : F;
  lit_1 : F;
  lit_2 : F;
  lit_debye : F;
  (** [1.5 * 10.0**(-7)], the bound of [numpy.testing.assert_almost_equal]
      at its default [decimal=7] *)
  lit_tol7 : F
}.

Declare Scope arith_scope.
Delimit Scope arith_scope with A.
Infix "+" := fadd : arith_scope.
Infix "-" := fsub : arith_scope.
Infix "*" := fmul : arith_scope.
Infix "/" := fdiv : arith_scope.
Notation "- x" := (fneg x) : arith_scope.

(** ** Exceptions, results *)

Inductive exn : Type :=
  | AssertionError (msg : string)
  | FileNotFoundError (filename : string)
  | JSONDecodeError (filename : string)
  | KeyError (key : string)
  | IndexError
  | ValueError (what : string)
  | TypeError
  | AttributeError
  | EOFError
  | UnicodeDecodeError
  | OSError (what : string)
  | LZMAError
  | DanglingReference.

Inductive result (A : Type) : Type :=
  | Ok (a : A)
  | Raise (e : exn).
Arguments Ok {A} a.
Arguments Raise {A} e.

Definition is_ok {A} (r : result A) : bool :=
  match r with Ok _ => true | Raise _ => false end.

(** References to numpy arrays bound to a name. *)
Definition loc := positive.

Section Code.
Context {F : Type} `{Arith F}.
Local Open Scope arith_scope.

(** *** numpy arrays of three floats *)

Record vec : Type := V3 { vx : F; vy : F; vz : F }.

Definition vadd (a b : vec) : vec := V3 (vx a + vx b) (vy a + vy b) (vz a + vz b).
Definition vsub (a b : vec) : vec := V3 (vx a - vx b) (vy a - vy b) (vz a - vz b).
(** [c * a] and [a * c] with a scalar [c]: element by element *)
Definition smul (c : F) (a : vec) : vec := V3 (c * vx a) (c * vy a) (c * vz a).
Definition vmuls (a : vec) (c : F) : vec := V3 (vx a * c) (vy a * c) (vz a * c).
Definition vdivs (a : vec) (c : F) : vec := V3 (vx a / c) (vy a / c) (vz a / c).

(** [np.linalg.norm(x)] of a real 1-d array: [sqrt(x.dot(x))], the dot
    product summed in index order (the order matters under rounding only,
    and not for a vector along an axis). *)
Definition dot (a b : vec) : F := (vx a * vx b + vy a * vy b) + vz a * vz b.
Definition norm (a : vec) : F := fsqrt (dot a a).

(** *** The notebook's state *)

(** One entry [[pos, charge, radius]] of [global_position_storage]. *)
Record PointCharge : Type := PC { pc_pos : vec; pc_charge : F; pc_radius : F }.

(** One line of the PQR text: the values substituted into [pqrformat]
    (the fixed fields ["ATOM"], ["PRT"], ["A"], ["PTR"], ["0"] are left
    out). The returned string [s] is the list of its lines. *)
Record AtomLine : Type := Line {
  atom_cnt : Z; residue_cnt : Z;
  line_x : F; line_y : F; line_z : F;
  line_charge : F; line_radius : F
}.
Definition pqr := list AtomLine.

Record state : Type := St {
  heap : gmap loc vec;
  global_position_storage : list PointCharge
}.

(** The module-level parameters of the notebook ([radius = 15],
    [charge = 2], [dipole_scalar = 150], [fictitious_charge = 10.0]). *)
Record Globals : Type := Glob {
  radius : F; charge : F; dipole_scalar : F; fictitious_charge : F
}.

(** *** State and exception monad *)

Definition M (A : Type) : Type := state -> result A * state.

Definition ret {A} (a : A) : M A := fun st => (Ok a, st).
Definition raise {A} (e : exn) : M A := fun st => (Raise e, st).
Definition bind {A B} (m : M A) (k : A -> M B) : M B :=
  fun st =>
    match m st with
    | (Ok a, st') => k a st'
    | (Raise e, st') => (Raise e, st')
    end.

Notation "'do' x <- m ; k" := (bind m (fun x => k))
  (at level 10, x name, m at level 100, k at level 200).
Notation "'run' m ; k" := (bind m (fun _ => k))
  (at level 10, m at level 100, k at level 200).

(** [assert cond, msg] *)
Definition assert_ (cond : bool) (msg : string) : M unit :=
  if cond then ret tt else raise (AssertionError msg).

(** reading the array a name is bound to *)
Definition read (l : loc) : M vec :=
  fun st =>
    match heap st !! l with
    | Some v => (Ok v, st)
    | None => (Raise DanglingReference, st)
    end.

(** [a += d] on a numpy array: the buffer is updated in place *)
Definition iadd (l : loc) (d : vec) : M unit :=
  do v <- read l ;
  fun st => (Ok tt, St (<[l := vadd v d]> (heap st)) (global_position_storage st)).

(** [a[:]] on a numpy array: a view, which shares the buffer of [a] *)
Definition view (l : loc) : M loc := ret l.

(** [deepcopy(a)]: a new array with the same contents *)
Definition deepcopy (l : loc) : M loc :=
  do v <- read l ;
  fun st =>
    let l' := fresh (dom (heap st)) in
    (Ok l', St (<[l' := v]> (heap st)) (global_position_storage st)).

(** [global_position_storage.append(deepcopy([pos, charge, radius]))] *)
Definition append_storage (p : PointCharge) : M unit :=
  fun st => (Ok tt, St (heap st) (global_position_storage st ++ [p])).

(** [range(n)] *)
Definition range (n : Z) : list Z := map Z.of_nat (seq 0 (Z.to_nat n)).

(** [for x in xs: s = body(x, s)] *)
Fixpoint for_ {A S} (xs : list A) (body : A -> S -> M S) (s : S) : M S :=
  match xs with
  | [] => ret s
  | x :: rest => do s' <- body x s ; for_ rest body s'
  end.

(** *** notebook.ipynb *)

Variable g : Globals.

Definition makeAtomEntry (counter : Z) (pos : vec) (charge radius : F) : M pqr :=
  let atom_cnt := counter in
  let residue_cnt := counter in
  run append_storage (PC pos charge radius) ;
  ret [Line atom_cnt residue_cnt (vx pos) (vy pos) (vz pos) charge radius].

(** [np.testing.assert_almost_equal(actual, desired)] on two scalars, with
    the default [decimal=7]. *)
Definition almost_equal (actual desired : F) : bool :=
  if negb (fisfinite desired && fisfinite actual) then
    if fisnan desired || fisnan actual then fisnan desired && fisnan actual
    else feq desired actual
  else negb (fge (fabs (desired - actual)) lit_tol7).

Definition assert_almost_equal (actual desired : F) : M unit :=
  assert_ (almost_equal actual desired) "Arrays are not almost equal to 7 decimals".

(** the displacement of the two auxiliary charges from the bead centre *)
Definition dipole_displacement (dipole_direction : vec) : vec :=
  let dipole_direction := vdivs dipole_direction (norm dipole_direction) in
  let debye_to_electron_angstrom := lit_debye in
  vdivs (smul (debye_to_electron_angstrom * dipole_scalar g) dipole_direction)
        (lit_2 * fictitious_charge g).

(** [mu] of [makeDipoleEntry] *)
Definition explicit_dipole (position displacement : vec) : vec :=
  vadd (vmuls (vadd position displacement) (fictitious_charge g))
       (vmuls (vsub position displacement) (- fictitious_charge g)).

Definition makeDipoleEntry (counter : Z) (position dipole_direction : vec) : M pqr :=
  do s <- makeAtomEntry counter position (charge g) (radius g) ;
  let debye_to_electron_angstrom := lit_debye in
  let displacement := dipole_displacement dipole_direction in
  run assert_ (flt (norm displacement) (radius g)) "increase `fictitious_charge`" ;
  do s1 <- makeAtomEntry (counter + 1) (vadd position displacement)
          (fictitious_charge g) lit_1 ;
  let s := s ++ s1 in
  do s2 <- makeAtomEntry (counter + 2) (vsub position displacement)
          (- fictitious_charge g) lit_1 ;
  let s := s ++ s2 in
  let mu := explicit_dipole position displacement in
  run assert_almost_equal (norm mu) (dipole_scalar g * debye_to_electron_angstrom) ;
  ret s.

(** [2.0 * radius * direction / np.linalg.norm(direction)] *)
Definition fibril_displacement (direction : vec) : vec :=
  vdivs (smul (lit_2 * radius g) direction) (norm direction).

Definition makeMonopoleFibril (number_of_proteins : Z) (initial_position : loc)
    (direction : vec) : M pqr :=
  let displacement := fibril_displacement direction in
  let s := [] in
  do position <- view initial_position ;
  for_ (range number_of_proteins) (fun counter s =>
    do pos <- read position ;
    do line <- makeAtomEntry (counter + 1) pos (charge g) (radius g) ;
    run iadd position displacement ;
    ret (s ++ line)) s.

Definition makeDipoleFibril (number_of_proteins : Z) (initial_position : loc)
    (direction : vec) : M pqr :=
  let displacement := fibril_displacement direction in
  let s := [] in
  do position <- deepcopy initial_position ;
  for_ (range number_of_proteins) (fun counter s =>
    do pos <- read position ;
    do lines <- makeDipoleEntry (counter + 1) pos direction ;
    run iadd position displacement ;
    ret (s ++ lines)) s.

(** [calcPotential] reads the global [global_position_storage]; the [print]
    of the number of charge points is left out. No statement of it raises:
    numpy's division by a zero distance yields an infinity or a NaN (with a
    [RuntimeWarning]), so the call returns a float in every case. *)
Definition calcPotential (target_position : vec) : M F :=
  fun st =>
    let bjerrum_length := (7 * 80)%Z in
    let potential :=
      fold_left (fun potential p =>
        let distance := norm (vsub target_position (pc_pos p)) in
        potential + pc_charge p / distance) (global_position_storage st) lit_0 in
    (Ok (of_int bjerrum_length * potential), st).

End Code.

Arguments vec F : clear implicits.
Arguments PointCharge F : clear implicits.
Arguments AtomLine F : clear implicits.
Arguments pqr F : clear implicits.
Arguments state F : clear implicits.
Arguments Globals F : clear implicits.
Arguments M F A : clear implicits.

(** ** evaporation.ipynb *)

Definition rbind {A B} (r : result A) (k : A -> result B) : result B :=
  match r with
  | Ok a => k a
  | Raise e => Raise e
  end.

Notation "'try' x <- r ; k" := (rbind r (fun x => k))
  (at level 10, x name, r at level 100, k at level 200).

Section FileNames.
Import Stdlib.Strings.Ascii.

(** The characters up to the first [/]: of a reversed name, its last
    component. *)
Fixpoint before_separator (name : list ascii) : list ascii :=
  match name with
  | [] => []
  | c :: rest => if Ascii.eqb c "/"%char then [] else c :: before_separator rest
  end.

(** The last component of a name is run through from its end, [passed]
    holding what has been passed: the extension starts at the last dot,
    when something other than dots comes before that dot. *)
Fixpoint extension_from (component passed : list ascii) : list ascii :=
  match component with
  | [] => []
  | c :: rest =>
      if Ascii.eqb c "."%char then
        if existsb (fun b => negb (Ascii.eqb b "."%char)) rest then c :: passed else []
      else extension_from rest (c :: passed)
  end.

(** [os.path.splitext(filename)[1]], with [/] as the separator *)
Definition extension (filename : string) : string :=
  string_of_list_ascii
    (extension_from (before_separator (rev (list_ascii_of_string filename))) []).

(** How numpy opens a file it is given by name: by the extension, with
    [gzip.open], [bz2.open], [lzma.open], or else with [open]. *)
Inductive opener : Type := PlainOpen | GzipOpen | Bz2Open | LzmaOpen.

Definition numpy_opener (filename : string) : opener :=
  let ext := extension filename in
  if String.eqb ext ".gz" then GzipOpen
  else if String.eqb ext ".bz2" then Bz2Open
  else if String.eqb ext ".xz" || String.eqb ext ".lzma" then LzmaOpen
  else PlainOpen.

End FileNames.

Section Evaporation.
Context {F : Type} `{Arith F}.
Local Open Scope arith_scope.

(** What [json.load] returns. A [dict] is the list of its items in
    insertion order (its keys are distinct). *)
Inductive json : Type :=
  | JNone
  | JBool (b : bool)
  | JNum (x : F)
  | JStr (s : string)
  | JList (l : list json)
  | JDict (items : list (string * json)).

(** The files the loaders are pointed at. Each is described by what the
    opener of the loader that reads it finds: [open] for [json.load], and for
    [np.loadtxt] numpy's opener, which decompresses by the extension of the
    name. [Table rows] is a text of whitespace-separated numbers, one list
    per data line (and no JSON document: a text that is one number is the
    document of that number); [Document doc] is a text that [json.load]
    parses to [doc]; [Unreadable] is any other text (a JSON text cut short,
    fields that are no numbers); [CutGzip] is, byte by byte, a gzip stream
    that ends before its end-of-stream marker, its two magic bytes at the
    least being there. A name without a file is absent from the map. *)
Inductive file : Type :=
  | Table (rows : list (list F))
  | Document (doc : json)
  | CutGzip
  | Unreadable.

Definition filesystem : Type := gmap string file.

(** [json.load(f)] under [with open(filename) as f]: [open] reads text in
    the default encoding, UTF-8, in which the second magic byte of a gzip
    stream cannot be decoded. *)
Definition json_load (fs : filesystem) (filename : string) : result json :=
  match fs !! filename with
  | None => Raise (FileNotFoundError filename)
  | Some (Document doc) => Ok doc
  | Some CutGzip => Raise UnicodeDecodeError
  | Some _ => Raise (JSONDecodeError filename)
  end.

Fixpoint assoc (key : string) (items : list (string * json)) : option json :=
  match items with
  | [] => None
  | (k, v) :: rest => if String.eqb k key then Some v else assoc key rest
  end.

(** [x[key]] with a string key *)
Definition getitem (x : json) (key : string) : result json :=
  match x with
  | JDict items =>
      match assoc key items with
      | Some v => Ok v
      | None => Raise (KeyError key)
      end
  | _ => Raise TypeError
  end.

(** the values [for v in x] runs through *)
Definition iterate (x : json) : result (list json) :=
  match x with
  | JList l => Ok l
  | JDict items => Ok (map (fun kv => JStr (fst kv)) items)
  | JStr s => Ok (map (fun c => JStr (String c EmptyString)) (list_ascii_of_string s))
  | _ => Raise TypeError
  end.

(** [x.items()] *)
Definition dict_items (x : json) : result (list (string * json)) :=
  match x with
  | JDict items => Ok items
  | _ => Raise AttributeError
  end.

(** [x * c] with a float [c] *)
Definition times_float (x : json) (c : F) : result F :=
  match x with
  | JNum v => Ok (v * c)
  | JBool b => Ok (of_int (if b then 1 else 0) * c)
  | _ => Raise TypeError
  end.

(** The inner loop of [getBareDipoleMoment]: [Ok (Some v)] when it
    returned [v], [Ok None] when it ran to its end. *)
Fixpoint multipole_in_items (to_debye : F) (items : list (string * json))
    : result (option F) :=
  match items with
  | [] => Ok None
  | (key, val) :: rest =>
      if String.eqb key "multipole" then
        try molecules <- getitem val "molecules" ;
        try multipole <- getitem molecules "protein" ;
        try mu <- getitem multipole "μ" ;
        try v <- times_float mu to_debye ;
        Ok (Some v)
      else multipole_in_items to_debye rest
  end.

(** The outer loop. *)
Fixpoint multipole_in_analyses (to_debye : F) (analyses : list json)
    : result (option F) :=
  match analyses with
  | [] => Ok None
  | analysis :: rest =>
      try items <- dict_items analysis ;
      try found <- multipole_in_items to_debye items ;
      match found with
      | Some v => Ok (Some v)
      | None => multipole_in_analyses to_debye rest
      end
  end.

Definition getBareDipoleMoment (fs : filesystem) (output_json_file : string)
    : result F :=
  let to_debye := lit_1 / lit_debye in
  try doc <- json_load fs output_json_file ;
  try analysis_list <- getitem doc "analysis" ;
  try analyses <- iterate analysis_list ;
  try found <- multipole_in_analyses to_debye analyses ;
  match found with
  | Some v => Ok v
  | None => Raise (AssertionError "")
  end.

(** What [np.loadtxt(filename, usecols=[c])] returns: the selected column,
    squeezed: a 1-d array, or a 0-d array when the file has one data line.
    [loadtxt] follows numpy's documented behaviour (numpy 1.23 and later):
    an absent file raises [FileNotFoundError]; a data line without the
    column raises [ValueError] (numpy before 1.23 raised [IndexError]
    there); content that is no table of numbers raises [ValueError]; a file
    without data lines gives an empty array. *)
Inductive ndarray : Type :=
  | Array0 (x : F)
  | Array1 (xs : list F).

Fixpoint select_column (c : nat) (rows : list (list F)) : result (list F) :=
  match rows with
  | [] => Ok []
  | row :: rest =>
      match nth_error row c with
      | None => Raise (ValueError "invalid column index")
      | Some v => try col <- select_column c rest ; Ok (v :: col)
      end
  end.

(** A cut gzip stream makes [gzip] raise [EOFError] when the reader comes to
    the cut. Under a name numpy opens otherwise its bytes are refused: as
    text in the default encoding, UTF-8, with [UnicodeDecodeError], by [bz2]
    with [OSError], by [lzma] with [LZMAError]. *)
Definition loadtxt (fs : filesystem) (filename : string) (usecol : nat)
    : result ndarray :=
  match fs !! filename with
  | None => Raise (FileNotFoundError filename)
  | Some (Table rows) =>
      try col <- select_column usecol rows ;
      Ok (match col with [x] => Array0 x | _ => Array1 col end)
  | Some CutGzip =>
      match numpy_opener filename with
      | GzipOpen => Raise EOFError
      | PlainOpen => Raise UnicodeDecodeError
      | Bz2Open => Raise (OSError "Invalid data stream")
      | LzmaOpen => Raise LZMAError
      end
  | Some _ => Raise (ValueError "could not convert string to float")
  end.

(** [a[-1]] *)
Definition last_item (a : ndarray) : result F :=
  match a with
  | Array0 _ => Raise IndexError
  | Array1 xs =>
      match last xs with
      | Some v => Ok v
      | None => Raise IndexError
      end
  end.

Definition getSystemDipoleMoment (fs : filesystem) (filename : string) : result F :=
  let to_debye := lit_1 / lit_debye in
  try a <- loadtxt fs filename 2 ;
  try v <- last_item a ;
  Ok (v * to_debye).

(** [a * c] on an array *)
Definition array_times (a : ndarray) (c : F) : ndarray :=
  match a with
  | Array0 x => Array0 (x * c)
  | Array1 xs => Array1 (map (fun x => x * c) xs)
  end.

(** a 3 x N array, by rows *)
Record matrix3 : Type := Rows { row_x : list F; row_y : list F; row_z : list F }.

(** the row [np.vstack] makes of an array ([np.atleast_2d]) *)
Definition as_row (a : ndarray) : list F :=
  match a with
  | Array0 x => [x]
  | Array1 xs => xs
  end.

(** [np.vstack((a, b, c))]: the rows must be equally long *)
Definition vstack (a b c : ndarray) : result matrix3 :=
  if Nat.eqb (length (as_row a)) (length (as_row b))
     && Nat.eqb (length (as_row b)) (length (as_row c))
  then Ok (Rows (as_row a) (as_row b) (as_row c))
  else Raise (ValueError "all the input array dimensions must match").

(** three rows combined element by element *)
Fixpoint zip3_with (f : F -> F -> F -> F) (xs ys zs : list F) : list F :=
  match xs, ys, zs with
  | x :: xs', y :: ys', z :: zs' => f x y z :: zip3_with f xs' ys' zs'
  | _, _, _ => []
  end.

Fixpoint zip2_with (f : F -> F -> F) (xs ys : list F) : list F :=
  match xs, ys with
  | x :: xs', y :: ys' => f x y :: zip2_with f xs' ys'
  | _, _ => []
  end.

(** the core of [systemDipoleMomentVector], after the three [np.loadtxt] *)
Definition unit_dipole_vectors (mu : matrix3) : matrix3 :=
  let mu_len :=
    map fsqrt (zip3_with (fun x y z => (x * x + y * y) + z * z)
                 (row_x mu) (row_y mu) (row_z mu)) in
  Rows (zip2_with fdiv (row_x mu) mu_len)
       (zip2_with fdiv (row_y mu) mu_len)
       (zip2_with fdiv (row_z mu) mu_len).

Definition systemDipoleMomentVector (fs : filesystem) : result matrix3 :=
  let to_debye := lit_1 / lit_debye in
  try mux <- loadtxt fs "mu_x.dat.gz" 1 ;
  let mux := array_times mux to_debye in
  try muy <- loadtxt fs "mu_y.dat.gz" 1 ;
  let muy := array_times muy to_debye in
  try muz <- loadtxt fs "mu_z.dat.gz" 1 ;
  let muz := array_times muz to_debye in
  try mu <- vstack mux muy muz ;
  Ok (unit_dipole_vectors mu).

(** the sum of a row, added from the left (numpy adds a long row in blocks;
    without rounding the order does not matter) *)
Definition row_sum (xs : list F) : F :=
  match xs with
  | [] => lit_0
  | x :: rest => fold_left fadd rest x
  end.

(** [row.mean()]: the sum over the number of entries *)
Definition mean (xs : list F) : F := row_sum xs / of_int (Z.of_nat (length xs)).

Definition squares (xs : list F) : list F := map (fun x => x * x) xs.

Definition systemDipoleAlignment (fs : filesystem) : result (vec F) :=
  try mu_hat <- systemDipoleMomentVector fs ;
  Ok (V3 (mean (squares (row_x mu_hat)))
         (mean (squares (row_y mu_hat)))
         (mean (squares (row_z mu_hat)))).

End Evaporation.

Arguments json F : clear implicits.
Arguments file F : clear implicits.
Arguments filesystem F : clear implicits.
Arguments ndarray F : clear implicits.
Arguments matrix3 F : clear implicits.

(** ** The two readings of the arithmetic *)

(** IEEE 754 binary64, rounding to nearest even: the arithmetic of Python
    floats and of numpy's [float64]. *)
Module Binary64.

(** [float(n)] of a Python [int]: the nearest binary64 number *)
Definition float_of_int (n : Z) : float :=
  SF2Prim (binary_normalize prec emax n 0 false).

#[export] Instance arith : Arith float := {|
  fadd := PrimFloat.add;
  fsub := PrimFloat.sub;
  fmul := PrimFloat.mul;
  fdiv := PrimFloat.div;
  fneg := PrimFloat.opp;
  fsqrt := PrimFloat.sqrt;
  fabs := PrimFloat.abs;
  flt := PrimFloat.ltb;
  fge := fun a b => PrimFloat.leb b a;
  feq := PrimFloat.eqb;
  fisfinite := PrimFloat.is_finite;
  fisnan := PrimFloat.is_nan;
  of_int := float_of_int;
  lit_0 := 0%float;
  lit_1 := 1%float;
  lit_2 := 2%float;
  lit_debye := 0.2081943%float;
  lit_tol7 := (1.5 * 1e-7)%float
|}.

(** The notebook's parameters. *)
Definition notebook : Globals float :=
  {| radius := 15%float; charge := 2%float;
     dipole_scalar := 150%float; fictitious_charge := 10%float |}.

(** No array, and an empty [global_position_storage]. *)
Definition empty_state : state float := St ∅ [].

End Binary64.

(** The real numbers: every operation without rounding, every value
    finite. The notebooks compute in binary64; this reading is for the
    statements that say "without rounding" or "in exact arithmetic", and for
    nothing else. *)
Module Exact.

#[export] Instance arith : Arith R := {|
  fadd := Rplus;
  fsub := Rminus;
  fmul := Rmult;
  fdiv := Rdiv;
  fneg := Ropp;
  fsqrt := sqrt;
  fabs := Rabs;
  flt := fun a b => if Rlt_dec a b then true else false;
  fge := fun a b => if Rge_dec a b then true else false;
  feq := fun a b => if Req_dec_T a b then true else false;
  fisfinite := fun _ => true;
  fisnan := fun _ => false;
  of_int := IZR;
  lit_0 := 0%R;
  lit_1 := 1%R;
  lit_2 := 2%R;
  lit_debye := 0.2081943%R;
  lit_tol7 := (1.5 * 1e-7)%R
|}.

End Exact.

(** ** What the generators produce

    The lines, the stored records and the array contents the statements
    below are written with. *)

Section Shapes.
Context {F : Type} `{Arith F}.
Variable g : Globals F.

(** The three lines and the three stored records of one dipolar bead. *)
Definition bead_lines (counter : Z) (position displacement : vec F) : pqr F :=
  [ Line counter counter (vx position) (vy position) (vz position)
      (charge g) (radius g);
    Line (counter + 1) (counter + 1)
      (vx (vadd position displacement)) (vy (vadd position displacement))
      (vz (vadd position displacement)) (fictitious_charge g) lit_1;
    Line (counter + 2) (counter + 2)
      (vx (vsub position displacement)) (vy (vsub position displacement))
      (vz (vsub position displacement)) (fneg (fictitious_charge g)) lit_1 ].

Definition bead_charges (position displacement : vec F) : list (PointCharge F) :=
  [ PC position (charge g) (radius g);
    PC (vadd position displacement) (fictitious_charge g) lit_1;
    PC (vsub position displacement) (fneg (fictitious_charge g)) lit_1 ].

(** The two checks of [makeDipoleEntry]. *)
Definition inside_bead (dipole_direction : vec F) : bool :=
  flt (norm (dipole_displacement g dipole_direction)) (radius g).

Definition dipole_matches (position dipole_direction : vec F) : bool :=
  almost_equal
    (norm (explicit_dipole g position (dipole_displacement g dipole_direction)))
    (fmul (dipole_scalar g) lit_debye).

(** The position name after [k] rounds of [position += displacement]. *)
Fixpoint advance (d : vec F) (k : nat) (p : vec F) : vec F :=
  match k with
  | O => p
  | S k' => advance d k' (vadd p d)
  end.

(** The lines and the stored records of a monopole fibril from [p]. *)
Fixpoint monopole_lines (d : vec F) (p : vec F) (counters : list Z) : pqr F :=
  match counters with
  | [] => []
  | c :: rest =>
      Line (c + 1) (c + 1) (vx p) (vy p) (vz p) (charge g) (radius g)
        :: monopole_lines d (vadd p d) rest
  end.

Fixpoint monopole_charges (d : vec F) (p : vec F) (k : nat) : list (PointCharge F) :=
  match k with
  | O => []
  | S k' => PC p (charge g) (radius g) :: monopole_charges d (vadd p d) k'
  end.

(** The body of the loop of [makeMonopoleFibril]. *)
Definition monopole_body (position : loc) (displacement : vec F)
    (counter : Z) (s : pqr F) : M F (pqr F) :=
  bind (read position) (fun pos =>
  bind (makeAtomEntry (counter + 1) pos (charge g) (radius g)) (fun line =>
  bind (iadd position displacement) (fun _ => ret (s ++ line)))).

(** In dipole mode every bead has to pass the two checks. *)
Fixpoint beads_ok (d direction : vec F) (p : vec F) (k : nat) : bool :=
  match k with
  | O => true
  | S k' =>
      inside_bead direction && dipole_matches p direction
      && beads_ok d direction (vadd p d) k'
  end.

(** The lines and the stored records of a dipole fibril from [p]. *)
Fixpoint dipole_lines (d direction : vec F) (p : vec F) (counters : list Z) : pqr F :=
  match counters with
  | [] => []
  | c :: rest =>
      bead_lines (c + 1) p (dipole_displacement g direction)
        ++ dipole_lines d direction (vadd p d) rest
  end.

Fixpoint dipole_charges (d direction : vec F) (p : vec F) (k : nat)
    : list (PointCharge F) :=
  match k with
  | O => []
  | S k' =>
      bead_charges p (dipole_displacement g direction)
        ++ dipole_charges d direction (vadd p d) k'
  end.

(** The body of the loop of [makeDipoleFibril]. *)
Definition dipole_body (position : loc) (displacement direction : vec F)
    (counter : Z) (s : pqr F) : M F (pqr F) :=
  bind (read position) (fun pos =>
  bind (makeDipoleEntry g (counter + 1) pos direction) (fun lines =>
  bind (iadd position displacement) (fun _ => ret (s ++ lines)))).

(** The coordinates printed on a line. *)
Definition line_pos (ln : AtomLine F) : vec F := V3 (line_x ln) (line_y ln) (line_z ln).

(** In dipole mode the bead itself is the first of each three lines. *)
Fixpoint every_third (s : pqr F) : pqr F :=
  match s with
  | bead :: _ :: _ :: rest => bead :: every_third rest
  | _ => []
  end.




(** What [getBareDipoleMoment] makes of the value [val] of an entry keyed
    ["multipole"]: [val['molecules']['protein']['μ'] * to_debye]. *)
Definition dipole_of_entry (val : json F) : result F :=
  try molecules <- getitem val "molecules" ;
  try multipole <- getitem molecules "protein" ;
  try mu <- getitem multipole "μ" ;
  times_float mu (fdiv lit_1 lit_debye).

(** An analysis that is a [dict] without the key ["multipole"]. *)
Definition lacks_multipole (analysis : json F) : Prop :=
  exists items, analysis = JDict items
    /\ Forall (fun kv => fst kv <> "multipole"%string) items.

(** The entry of [global_position_storage] that goes with a line: the same
    position, charge and radius. *)
Definition charge_of_line (ln : AtomLine F) : PointCharge F :=
  PC (line_pos ln) (line_charge ln) (line_radius ln).

End Shapes.

(** ** Inputs in binary64 *)

Import Binary64.

(** The exact value of a finite binary64 number, as a rational. *)
Definition Q_of_float (x : float) : Q :=
  match Prim2SF x with
  | S754_finite s m e =>
      Qmult (inject_Z (if s then Zneg m else Zpos m)) (Qpower (2 # 1) e)
  | _ => 0%Q
  end.

(** The notebook's starting point and growing direction. *)
Definition origin : vec float := (V3 0 0 0)%float.
Definition x_axis : vec float := (V3 1 0 0)%float.

(** The state of the notebook's example cell: [position = [0, 0, 0]] is the
    array at reference 1, and [global_position_storage] is empty. *)
Definition example_state : state float := St (<[1%positive := origin]> ∅) [].

(** The notebook's parameters with a fictitious charge of [0.1]: the
    displacement, [0.2081943 * 150 / (2 * 0.1)], is about 156 and exceeds the
    radius 15. *)
Definition small_charge : Globals float :=
  {| radius := 15%float; charge := 2%float;
     dipole_scalar := 150%float; fictitious_charge := 0.1%float |}.

(** A dipole of 1 D, on a bead [3e7] from the origin. *)
Definition one_debye : Globals float :=
  {| radius := 15%float; charge := 2%float;
     dipole_scalar := 1%float; fictitious_charge := 10%float |}.
Definition far_away : vec float := (V3 3e7 0 0)%float.




(** The atom indices of the lines a builder returned. *)
Definition atom_indices {F} (r : result (pqr F)) : result (list Z) :=
  match r with
  | Ok s => Ok (map atom_cnt s)
  | Raise e => Raise e
  end.

(** Classes of [spec_float] values. *)
Definition sf_zero_or_nan (s : spec_float) : bool :=
  match s with S754_zero _ | S754_nan => true | _ => false end.
Definition sf_nonfinite (s : spec_float) : bool :=
  match s with S754_infinity _ | S754_nan => true | _ => false end.

(** The loop of [calcPotential]. *)
Definition potential_loop64 (target : vec float) (charges : list (PointCharge float))
    (potential : float) : float :=
  fold_left (fun potential p =>
      (potential + pc_charge p / norm (vsub target (pc_pos p)))%float)
    charges potential.

(** A sample whose three components are zero ([+0] or [-0]). *)
Definition is_zero_sample (x y z : float) : bool :=
  PrimFloat.is_zero x && PrimFloat.is_zero y && PrimFloat.is_zero z.

(** A series of three data lines: step, a second column, the dipole. *)
Definition dipole_series : list (list float) :=
  [ [0; 10; 1.5]; [100; 11; 2.5]; [200; 12; 3.5] ]%float.

(** A document in the layout of [out.json]. *)
Definition out_json : json float :=
  JDict [ ("analysis"%string,
           JList [ JDict [ ("sanity"%string, JDict []) ];
                   JDict [ ("multipole"%string,
                            JDict [ ("molecules"%string,
                                     JDict [ ("protein"%string,
                                              JDict [ ("Z"%string, JNum 13%float);
                                                      ("μ"%string, JNum 80%float) ]) ]) ]) ] ]) ].

(** Three component files whose samples are all [(0, 0, 1)]. *)
Definition along_z : filesystem float :=
  {[ "mu_x.dat.gz"%string := Table [ [0; 0]; [100; 0]; [200; 0] ]%float;
     "mu_y.dat.gz"%string := Table [ [0; 0]; [100; 0]; [200; 0] ]%float;
     "mu_z.dat.gz"%string := Table [ [0; 1]; [100; 1]; [200; 1] ]%float ]}.

(** Three component files with the one sample [(1, 0, 1)]. *)
Definition one_sample : filesystem float :=
  {[ "mu_x.dat.gz"%string := Table [ [0; 1] ]%float;
     "mu_y.dat.gz"%string := Table [ [0; 0] ]%float;
     "mu_z.dat.gz"%string := Table [ [0; 1] ]%float ]}.

(** ** The text of a PQR file, in binary64 *)

Section PqrFormat.
Import Stdlib.Strings.Ascii.

(** A Python [str], as the list of its characters. *)
Definition text := list ascii.

Definition newline : ascii := "010"%char.

Definition spaces (n : nat) : text := repeat " "%char n.

(** A field of the format mini-language is padded to its width and never
    cut: [>] (the default for numbers), [<] (the default for strings) and
    [^], which puts the odd space on the right. *)
Definition align_right (width : nat) (t : text) : text :=
  spaces (width - length t) ++ t.

Definition align_left (width : nat) (t : text) : text :=
  t ++ spaces (width - length t).

Definition align_centre (width : nat) (t : text) : text :=
  let fill := (width - length t)%nat in
  spaces (Nat.div2 fill) ++ t ++ spaces (fill - Nat.div2 fill).

(** [{:Ws}] and [{:^Ws}] *)
Definition format_s (width : nat) (s : string) : text :=
  align_left width (list_ascii_of_string s).

Definition format_centred (width : nat) (s : string) : text :=
  align_centre width (list_ascii_of_string s).

Definition digit (d : Z) : ascii := ascii_of_nat (48 + Z.to_nat d).

Fixpoint decimal_digits (fuel : nat) (n : Z) (acc : text) : text :=
  match fuel with
  | O => acc
  | S fuel' =>
      let acc' := digit (n mod 10) :: acc in
      if (n / 10 =? 0)%Z then acc' else decimal_digits fuel' (n / 10) acc'
  end.

(** The decimal digits of [n >= 0]; [n] has at most [log2 n + 1] of them. *)
Definition decimal_text (n : Z) : text :=
  decimal_digits (S (Z.to_nat (Z.log2 n))) n [].

(** [{:Wd}] *)
Definition format_d (width : nat) (n : Z) : text :=
  align_right width
    (if (n <? 0)%Z then "-"%char :: decimal_text (- n) else decimal_text n).

(** [num / den] rounded to the nearest integer, ties to the even one. *)
Definition round_half_even (num den : Z) : Z :=
  let q := (num / den)%Z in
  let r := (num mod den)%Z in
  match (2 * r ?= den)%Z with
  | Lt => q
  | Gt => (q + 1)%Z
  | Eq => if Z.even q then q else (q + 1)%Z
  end.

(** [n / 10^prec] with [prec] digits after the point. *)
Definition fixed_point (prec : nat) (n : Z) : text :=
  let ds := decimal_text n in
  let ds := repeat "0"%char (S prec - length ds) ++ ds in
  firstn (length ds - prec) ds ++ "."%char :: skipn (length ds - prec) ds.

Definition sign_text (negative : bool) : text :=
  if negative then ["-"%char] else [].

(** [{:W.Pf}] on a binary64 number: its exact value [m * 2^e], correctly
    rounded to [prec] decimals (ties to even); the sign is kept on a result
    that rounds to zero. *)
Definition format_f (width prec : nat) (x : float) : text :=
  align_right width
    match Prim2SF x with
    | S754_nan => list_ascii_of_string "nan"
    | S754_infinity s => sign_text s ++ list_ascii_of_string "inf"
    | S754_zero s => sign_text s ++ fixed_point prec 0
    | S754_finite s m e =>
        let num := (Zpos m * 10 ^ Z.of_nat prec * 2 ^ Z.max e 0)%Z in
        let den := (2 ^ Z.max (- e) 0)%Z in
        sign_text s ++ fixed_point prec (round_half_even num den)
    end.

(** [pqrformat.format("ATOM", atom_cnt, atomname, "A", resname, chain,
    residue_cnt, "0", pos[0], pos[1], pos[2], charge, radius)] with
    [pqrformat =
     "{:6s}{:5d} {:^4s}{:1s}{:3s} {:1s}{:4d}{:1s}   {:8.3f}{:8.3f}{:8.3f}{:6.2f}{:6.2f}\n"] *)
Definition pqrformat (ln : AtomLine float) : text :=
  format_s 6 "ATOM" ++ format_d 5 (atom_cnt ln) ++ list_ascii_of_string " "
    ++ format_centred 4 "PRT" ++ format_s 1 "A" ++ format_s 3 "PTR"
    ++ list_ascii_of_string " "
    ++ format_s 1 "A" ++ format_d 4 (residue_cnt ln) ++ format_s 1 "0"
    ++ list_ascii_of_string "   "
    ++ format_f 8 3 (line_x ln) ++ format_f 8 3 (line_y ln) ++ format_f 8 3 (line_z ln)
    ++ format_f 6 2 (line_charge ln) ++ format_f 6 2 (line_radius ln)
    ++ [newline].

(** The string a builder returns: the entries one after the other
    ([s += makeAtomEntry(...)]). *)
Definition pqr_text (s : pqr float) : text := concat (map pqrformat s).

(** The number of line ends in a text. *)
Definition line_count (t : text) : nat := count_occ ascii_dec t newline.

End PqrFormat.

(** ** Inputs and sums in exact arithmetic *)

Module ExactShapes.
Import Exact.
Local Open Scope R_scope.

(** [direction / norm(direction)] *)
Definition unit_vector (direction : vec R) : vec R := vdivs direction (norm direction).


(** The notebook's parameters and example cell, in exact arithmetic. *)
Definition notebook_exact : Globals R :=
  {| radius := 15; charge := 2; dipole_scalar := 150; fictitious_charge := 10 |}.
Definition origin_exact : vec R := V3 0 0 0.
Definition x_axis_exact : vec R := V3 1 0 0.



(** [to_debye = 1.0 / 0.2081943] *)
Definition to_debye : R := 1 / 0.2081943.

(** One sample, scaled to Debye, and the square of each component of its
    unit vector. *)
Definition scaled_length (v : vec R) : R :=
  sqrt ((vx v * to_debye) * (vx v * to_debye) + (vy v * to_debye) * (vy v * to_debye)
        + (vz v * to_debye) * (vz v * to_debye)).

Definition hat (component : vec R -> R) (v : vec R) : R :=
  component v * to_debye / scaled_length v.

(** The sum of [f] over the samples. *)
Definition total (f : vec R -> R) (samples : list (vec R)) : R :=
  fold_right Rplus 0 (map f samples).

(** Two samples [(0, 0, 1)], in the three component files. *)
Definition along_z_exact : filesystem R :=
  {[ "mu_x.dat.gz"%string := Table [ [0; 0]; [100; 0] ];
     "mu_y.dat.gz"%string := Table [ [0; 0]; [100; 0] ];
     "mu_z.dat.gz"%string := Table [ [0; 1]; [100; 1] ] ]}.

(** The sum of the charges of some records, and their dipole moment about
    a centre: the sum of [charge * (position - centre)]. *)
Definition total_charge (charges : list (PointCharge R)) : R :=
  fold_right Rplus 0 (map pc_charge charges).

Definition dipole_about (centre : vec R) (charges : list (PointCharge R)) : vec R :=
  fold_right vadd (V3 0 0 0)
    (map (fun q => smul (pc_charge q) (vsub (pc_pos q) centre)) charges).

(** A record moved by [t]. *)
Definition shifted (t : vec R) (q : PointCharge R) : PointCharge R :=
  PC (vadd (pc_pos q) t) (pc_charge q) (pc_radius q).

End ExactShapes.

(** * Theorems *)

(** ** How the generators run, whatever the arithmetic *)

Section Runs.
Context {F : Type} `{Arith F}.
Variable g : Globals F.

Lemma makeAtomEntry_run counter pos q r (st : state F) :
  makeAtomEntry counter pos q r st =
    (Ok [Line counter counter (vx pos) (vy pos) (vz pos) q r],
     St (heap st) (global_position_storage st ++ [PC pos q r])).
Proof. reflexivity. Qed.

(** The three ways [makeDipoleEntry] can end. *)
Lemma makeDipoleEntry_run counter position dipole_direction (st : state F) :
  let d := dipole_displacement g dipole_direction in
  makeDipoleEntry g counter position dipole_direction st =
    if inside_bead g dipole_direction then
      if dipole_matches g position dipole_direction then
        (Ok (bead_lines g counter position d),
         St (heap st) (global_position_storage st ++ bead_charges g position d))
      else
        (Raise (AssertionError "Arrays are not almost equal to 7 decimals"),
         St (heap st) (global_position_storage st ++ bead_charges g position d))
    else
      (Raise (AssertionError "increase `fictitious_charge`"),
       St (heap st)
          (global_position_storage st ++ [PC position (charge g) (radius g)])).
Proof.
  intros d. unfold makeDipoleEntry, inside_bead, dipole_matches, bind.
  rewrite makeAtomEntry_run. fold d.
  destruct (flt (norm d) (radius g)); cbn; [|reflexivity].
  unfold assert_almost_equal.
  destruct (almost_equal _ _); cbn;
    rewrite <- !app_assoc; reflexivity.
Qed.


Lemma monopole_loop_run l d counters : forall s (st : state F) p,
  heap st !! l = Some p ->
  for_ counters (monopole_body g l d) s st =
    (Ok (s ++ monopole_lines g d p counters),
     St (<[l := advance d (length counters) p]> (heap st))
        (global_position_storage st ++ monopole_charges g d p (length counters))).
Proof.
  induction counters as [|c rest IH]; intros s st p Hl; cbn [for_ length advance
    monopole_lines monopole_charges].
  - unfold ret. rewrite app_nil_r, app_nil_r, insert_id by exact Hl.
    destruct st; reflexivity.
  - unfold bind at 1. unfold monopole_body at 1.
    unfold bind, read, iadd, bind, read, ret. rewrite Hl, makeAtomEntry_run.
    cbn [heap global_position_storage]. rewrite Hl.
    cbn [heap global_position_storage].
    erewrite IH by (cbn [heap]; apply lookup_insert_eq).
    cbn [heap global_position_storage].
    rewrite insert_insert_eq, <- !app_assoc. reflexivity.
Qed.

Lemma makeMonopoleFibril_run n l direction (st : state F) p :
  heap st !! l = Some p ->
  let d := fibril_displacement g direction in
  makeMonopoleFibril g n l direction st =
    (Ok (monopole_lines g d p (range n)),
     St (<[l := advance d (Z.to_nat n) p]> (heap st))
        (global_position_storage st ++ monopole_charges g d p (Z.to_nat n))).
Proof.
  intros Hl d.
  change (makeMonopoleFibril g n l direction st)
    with (for_ (range n) (monopole_body g l d) [] st).
  rewrite (monopole_loop_run _ _ _ _ _ _ Hl).
  unfold range. rewrite length_map, length_seq. reflexivity.
Qed.

Lemma dipole_loop_run l d direction counters : forall s (st : state F) p,
  heap st !! l = Some p ->
  beads_ok g d direction p (length counters) = true ->
  for_ counters (dipole_body g l d direction) s st =
    (Ok (s ++ dipole_lines g d direction p counters),
     St (<[l := advance d (length counters) p]> (heap st))
        (global_position_storage st
           ++ dipole_charges g d direction p (length counters))).
Proof.
  induction counters as [|c rest IH]; intros s st p Hl Hok; cbn [for_ length advance
    dipole_lines dipole_charges].
  - unfold ret. rewrite app_nil_r, app_nil_r, insert_id by exact Hl.
    destruct st; reflexivity.
  - cbn [length beads_ok] in Hok.
    apply andb_true_iff in Hok as [Hok Hrest].
    apply andb_true_iff in Hok as [Hin Hmatch].
    unfold bind at 1. unfold dipole_body at 1.
    unfold bind at 1. unfold read at 1. rewrite Hl.
    unfold bind at 1. rewrite makeDipoleEntry_run, Hin, Hmatch.
    unfold bind, iadd, bind, read, ret.
    cbn [heap global_position_storage]. rewrite Hl.
    cbn [heap global_position_storage].
    erewrite IH by (cbn [heap]; first [apply lookup_insert_eq | exact Hrest]).
    cbn [heap global_position_storage].
    rewrite insert_insert_eq, <- !app_assoc. reflexivity.
Qed.

Lemma makeDipoleFibril_run n l direction (st : state F) p :
  heap st !! l = Some p ->
  let d := fibril_displacement g direction in
  let l' := fresh (dom (heap st)) in
  beads_ok g d direction p (Z.to_nat n) = true ->
  makeDipoleFibril g n l direction st =
    (Ok (dipole_lines g d direction p (range n)),
     St (<[l' := advance d (Z.to_nat n) p]> (heap st))
        (global_position_storage st ++ dipole_charges g d direction p (Z.to_nat n))).
Proof.
  intros Hl d l' Hok.
  transitivity (for_ (range n) (dipole_body g l' d direction) []
                  (St (<[l' := p]> (heap st)) (global_position_storage st))).
  { unfold makeDipoleFibril, bind at 1, deepcopy, bind at 1, read at 1.
    rewrite Hl. reflexivity. }
  assert (Hlen : length (range n) = Z.to_nat n)
    by (unfold range; rewrite length_map, length_seq; reflexivity).
  rewrite (dipole_loop_run l' d direction (range n) [] _ p).
  - cbn [heap global_position_storage]. rewrite Hlen, insert_insert_eq. reflexivity.
  - cbn [heap]. apply lookup_insert_eq.
  - rewrite Hlen. exact Hok.
Qed.

(** A loop of [makeDipoleFibril] that returns has returned these lines. *)
Lemma dipole_loop_returns l d direction counters : forall s (st : state F) p s' st',
  heap st !! l = Some p ->
  for_ counters (dipole_body g l d direction) s st = (Ok s', st') ->
  s' = s ++ dipole_lines g d direction p counters.
Proof.
  induction counters as [|c rest IH]; intros s st p s' st' Hl; cbn [for_ dipole_lines].
  - unfold ret. intros Hrun. injection Hrun as <- _. now rewrite app_nil_r.
  - unfold bind at 1. unfold dipole_body at 1.
    unfold bind at 1. unfold read at 1. rewrite Hl.
    unfold bind at 1. rewrite makeDipoleEntry_run.
    destruct (inside_bead g direction); [|discriminate].
    destruct (dipole_matches g p direction); [|discriminate].
    unfold bind, iadd, bind, read, ret.
    cbn [heap global_position_storage]. rewrite Hl.
    intros Hrun. apply IH with (p := vadd p d) in Hrun.
    + now rewrite Hrun, <- app_assoc.
    + cbn [heap]. apply lookup_insert_eq.
Qed.

Lemma makeDipoleFibril_returns n l direction (st : state F) p s st' :
  heap st !! l = Some p ->
  makeDipoleFibril g n l direction st = (Ok s, st') ->
  s = dipole_lines g (fibril_displacement g direction) direction p (range n).
Proof.
  intros Hl. unfold makeDipoleFibril, bind at 1, deepcopy, bind at 1, read at 1.
  rewrite Hl. intros Hrun.
  apply (dipole_loop_returns (fresh (dom (heap st))) _ direction (range n) [] _ p) in Hrun;
    [exact Hrun|].
  cbn [heap]. apply lookup_insert_eq.
Qed.



End Runs.

(** ** The dipole bead constructor: checks and effects *)

Section BeadConstructor.
Context {F : Type} `{Arith F}.
Variable g : Globals F.

(** C2, as the code has it: when the norm of the displacement is not below
    the bead radius, [makeDipoleEntry] raises [AssertionError] ("increase
    `fictitious_charge`") and returns no line; neither auxiliary charge has
    been stored, but the bead's own record has already been appended to
    [global_position_storage], by the call of [makeAtomEntry] that precedes
    the assertion. *)
Theorem makeDipoleEntry_outside_bead counter position dipole_direction (st : state F) :
  flt (norm (dipole_displacement g dipole_direction)) (radius g) = false ->
  makeDipoleEntry g counter position dipole_direction st =
    (Raise (AssertionError "increase `fictitious_charge`"),
     St (heap st)
        (global_position_storage st ++ [PC position (charge g) (radius g)])).
Proof.
  intros Hout. rewrite makeDipoleEntry_run. unfold inside_bead.
  rewrite Hout. reflexivity.
Qed.

(** C5, as the code has it: a call of [makeDipoleEntry] that returns has
    appended the three records of the bead, in the order neutral, positive,
    negative, to the global list [global_position_storage]; it returns the
    three lines and changes nothing else (no array of the heap is written). *)
Theorem makeDipoleEntry_effects counter position dipole_direction (st st' : state F) s :
  makeDipoleEntry g counter position dipole_direction st = (Ok s, st') ->
  let d := dipole_displacement g dipole_direction in
  s = bead_lines g counter position d
  /\ global_position_storage st' =
       global_position_storage st ++ bead_charges g position d
  /\ heap st' = heap st.
Proof.
  intros Hrun d. rewrite makeDipoleEntry_run in Hrun.
  destruct (inside_bead g dipole_direction); [|discriminate].
  destruct (dipole_matches g position dipole_direction); [|discriminate].
  injection Hrun as <- <-. auto.
Qed.

(** C1, as the code has it: when [makeDipoleEntry] returns, the magnitude of
    the dipole rebuilt from the two auxiliary charges has passed
    [assert_almost_equal] against [dipole_scalar * 0.2081943]: for finite
    values the two differ by less than [1.5e-7] in absolute value (seven
    decimals), which is not a bound on the relative error. *)
Theorem makeDipoleEntry_dipole_to_7_decimals counter position dipole_direction
    (st st' : state F) s :
  makeDipoleEntry g counter position dipole_direction st = (Ok s, st') ->
  let mu := explicit_dipole g position (dipole_displacement g dipole_direction) in
  let desired := fmul (dipole_scalar g) lit_debye in
  almost_equal (norm mu) desired = true
  /\ (fisfinite desired = true -> fisfinite (norm mu) = true ->
      fge (fabs (fsub desired (norm mu))) lit_tol7 = false).
Proof.
  intros Hrun mu desired. rewrite makeDipoleEntry_run in Hrun.
  destruct (inside_bead g dipole_direction); [|discriminate].
  destruct (dipole_matches g position dipole_direction) eqn:Hm; [|discriminate].
  split; [exact Hm|]. intros Hd Ha.
  unfold dipole_matches in Hm. fold mu desired in Hm.
  unfold almost_equal in Hm. rewrite Hd, Ha in Hm. cbn in Hm.
  now apply negb_true_iff in Hm.
Qed.

(** *** Aliasing of [initial_position] *)


End BeadConstructor.

(** ** Runs in binary64 *)

(** The model reproduces the output recorded in the notebook: 333 proteins
    give 999 charge points, and the potential at [(0, -10, 0)] prints as
    [319.1623268342322]. *)
Example notebook_recorded_output :
  let run := makeDipoleFibril notebook 333 1%positive x_axis example_state in
  is_ok (fst run) = true
  /\ length (global_position_storage (snd run)) = 999%nat
  /\ fst (calcPotential (V3 0 (-10) 0)%float (snd run))
     = Ok 319.1623268342322%float.
Proof. vm_compute. auto. Qed.

(** C1 fails in binary64: for a dipole of 1 D on a bead at [(3e7, 0, 0)] the
    construction is valid (displacement [0.0104] inside the radius 15, unit
    direction, fictitious charge 10) and [makeDipoleEntry] returns, yet the
    rebuilt magnitude is off [0.2081943] by more than [1e-9] of it (by about
    [3.6e-7] of it): [position + displacement] is rounded at that distance. *)
Lemma dipole_relative_error_counterexample :
  let d := dipole_displacement one_debye x_axis in
  let mu := explicit_dipole one_debye far_away d in
  PrimFloat.ltb (norm d) (radius one_debye) = true
  /\ PrimFloat.ltb 0 (fictitious_charge one_debye) = true
  /\ is_ok (fst (makeDipoleEntry one_debye 1 far_away x_axis empty_state)) = true
  /\ ((1 # 10 ^ 9) * (1 * (2081943 # 10 ^ 7))
       < Qabs (Q_of_float (norm mu) - 1 * (2081943 # 10 ^ 7)))%Q.
Proof. vm_compute. auto. Qed.

Lemma makeDipoleEntry_dipole_to_7_decimals_witness :
  let mu := explicit_dipole notebook origin (dipole_displacement notebook x_axis) in
  let desired := (dipole_scalar notebook * lit_debye)%float in
  makeDipoleEntry notebook 1 origin x_axis empty_state
    = (Ok (bead_lines notebook 1 origin (dipole_displacement notebook x_axis)),
       snd (makeDipoleEntry notebook 1 origin x_axis empty_state))
  /\ almost_equal (norm mu) desired = true
  /\ (fisfinite desired = true -> fisfinite (norm mu) = true ->
      fge (fabs (fsub desired (norm mu))) lit_tol7 = false).
Proof.
  assert (Hrun : makeDipoleEntry notebook 1 origin x_axis empty_state
    = (Ok (bead_lines notebook 1 origin (dipole_displacement notebook x_axis)),
       snd (makeDipoleEntry notebook 1 origin x_axis empty_state)))
    by (vm_compute; reflexivity).
  split; [exact Hrun|].
  exact (makeDipoleEntry_dipole_to_7_decimals notebook 1 origin x_axis _ _ _ Hrun).
Defined.

(** C2 fails: with [fictitious_charge = 0.1] the displacement length is not
    below the radius and the constructor raises, but [global_position_storage],
    empty before the call, now holds the record of the violating bead. *)
Lemma outside_bead_record_stored_counterexample :
  let run := makeDipoleEntry small_charge 1 origin x_axis empty_state in
  PrimFloat.ltb (lit_debye * 150 / (2 * 0.1))%float 15%float = false
  /\ is_ok (fst run) = false
  /\ global_position_storage (snd run) = [PC origin 2%float 15%float]
  /\ global_position_storage (snd run) <> global_position_storage empty_state.
Proof. vm_compute. repeat split; discriminate. Qed.

Lemma makeDipoleEntry_outside_bead_witness :
  flt (norm (dipole_displacement small_charge x_axis)) (radius small_charge) = false
  /\ makeDipoleEntry small_charge 1 origin x_axis empty_state =
      (Raise (AssertionError "increase `fictitious_charge`"),
       St (heap empty_state)
          (global_position_storage empty_state
             ++ [PC origin (charge small_charge) (radius small_charge)])).
Proof.
  assert (Hout : flt (norm (dipole_displacement small_charge x_axis))
                     (radius small_charge) = false) by (vm_compute; reflexivity).
  split; [exact Hout|].
  exact (makeDipoleEntry_outside_bead small_charge 1 origin x_axis empty_state Hout).
Defined.

(** C5 fails: a successful call on the empty store leaves three records in
    the global list. *)
Lemma makeDipoleEntry_mutates_global_counterexample :
  let run := makeDipoleEntry notebook 1 origin x_axis empty_state in
  is_ok (fst run) = true
  /\ length (global_position_storage (snd run)) = 3%nat
  /\ snd run <> empty_state.
Proof. vm_compute. repeat split; discriminate. Qed.

Lemma makeDipoleEntry_effects_witness :
  let d := dipole_displacement notebook x_axis in
  let st' := snd (makeDipoleEntry notebook 1 origin x_axis empty_state) in
  makeDipoleEntry notebook 1 origin x_axis empty_state
    = (Ok (bead_lines notebook 1 origin d), st')
  /\ bead_lines notebook 1 origin d = bead_lines notebook 1 origin d
  /\ global_position_storage st' =
       global_position_storage empty_state ++ bead_charges notebook origin d
  /\ heap st' = heap empty_state.
Proof.
  intros d st'.
  assert (Hrun : makeDipoleEntry notebook 1 origin x_axis empty_state
                 = (Ok (bead_lines notebook 1 origin d), st'))
    by (vm_compute; reflexivity).
  split; [exact Hrun|].
  exact (makeDipoleEntry_effects notebook 1 origin x_axis empty_state st' _ Hrun).
Defined.

(** C6 fails in dipole mode: two beads give the atom indices 1,2,3,2,3,4.
    The caller advances the counter by one per bead while each bead uses
    three indices. *)
Theorem makeDipoleFibril_indices_repeat :
  atom_indices (fst (makeDipoleFibril notebook 2 1%positive x_axis example_state))
    = Ok [1; 2; 3; 2; 3; 4]%Z.
Proof. vm_compute. reflexivity. Qed.

(** After three monopole beads the caller's array holds [(90, 0, 0)]. *)
Example monopole_moves_initial_position :
  heap (snd (makeMonopoleFibril notebook 3 1%positive x_axis example_state)) !! 1%positive
    = Some (V3 90 0 0)%float.
Proof. vm_compute. reflexivity. Qed.

(** ** Bead centres along a fibril *)

Section Centres.
Context {F : Type} `{Arith F}.
Variable g : Globals F.

Lemma vec_eta (v : vec F) : V3 (vx v) (vy v) (vz v) = v.
Proof. destruct v; reflexivity. Qed.

Lemma monopole_lines_length d p counters :
  length (monopole_lines g d p counters) = length counters.
Proof.
  revert p. induction counters as [|c rest IH]; intros p; cbn; [reflexivity|].
  now rewrite IH.
Qed.


Lemma monopole_lines_indices d counters : forall p,
  map atom_cnt (monopole_lines g d p counters) = map (fun c => (c + 1)%Z) counters.
Proof.
  induction counters as [|c rest IH]; intros p; cbn; [reflexivity|].
  now rewrite IH.
Qed.

Lemma dipole_lines_length d direction counters : forall p,
  length (dipole_lines g d direction p counters) = (3 * length counters)%nat.
Proof.
  induction counters as [|c rest IH]; intros p; cbn [dipole_lines length]; [reflexivity|].
  rewrite length_app, IH. cbn. lia.
Qed.


Lemma range_length n : length (range n) = Z.to_nat n.
Proof. unfold range. now rewrite length_map, length_seq. Qed.

Lemma dipole_lines_indices d direction counters : forall p,
  map atom_cnt (dipole_lines g d direction p counters)
    = flat_map (fun c => [c + 1; c + 1 + 1; c + 1 + 2]%Z) counters.
Proof.
  induction counters as [|c rest IH]; intros p; cbn [dipole_lines flat_map];
    [reflexivity|].
  rewrite map_app, IH. reflexivity.
Qed.

(** In dipole mode a fibril that is returned has the atom indices
    1,2,3, 2,3,4, ..., n,n+1,n+2: bead [i] starts at [i], not at [3i - 2]. *)
Lemma makeDipoleFibril_indices n initial_position direction (st st' : state F) p0 s :
  heap st !! initial_position = Some p0 ->
  makeDipoleFibril g n initial_position direction st = (Ok s, st') ->
  map atom_cnt s = flat_map (fun c => [c + 1; c + 1 + 1; c + 1 + 2]%Z) (range n).
Proof.
  intros Hl Hrun. rewrite (makeDipoleFibril_returns g n _ direction st p0 s st' Hl Hrun).
  apply dipole_lines_indices.
Qed.

(** In monopole mode the atom indices are 1, 2, ..., n. *)
Lemma makeMonopoleFibril_indices n initial_position direction (st : state F) p0 :
  heap st !! initial_position = Some p0 ->
  atom_indices (fst (makeMonopoleFibril g n initial_position direction st))
    = Ok (map (fun c => (c + 1)%Z) (range n)).
Proof.
  intros Hl. rewrite (makeMonopoleFibril_run g n _ direction st p0 Hl).
  cbn [fst atom_indices]. now rewrite monopole_lines_indices.
Qed.

End Centres.

(** ** Exact arithmetic *)

Module ExactFacts.
Import Exact ExactShapes.
Local Open Scope R_scope.

Lemma vec_eq (a b : vec R) :
  vx a = vx b -> vy a = vy b -> vz a = vz b -> a = b.
Proof. destruct a, b; cbn; intros -> -> ->; reflexivity. Qed.

Lemma dot_nonneg (v : vec R) : 0 <= dot v v.
Proof. unfold dot; cbn. nra. Qed.

Lemma norm_nonneg (v : vec R) : 0 <= norm v.
Proof. apply sqrt_pos. Qed.

Lemma norm_smul c (v : vec R) : norm (smul c v) = Rabs c * norm v.
Proof.
  unfold norm. cbn [fsqrt arith].
  replace (dot (smul c v) (smul c v)) with (Rsqr c * dot v v)
    by (unfold dot, smul, Rsqr; cbn; ring).
  rewrite sqrt_mult by (auto using Rle_0_sqr, dot_nonneg).
  now rewrite sqrt_Rsqr_abs.
Qed.

Lemma vdivs_smul (v : vec R) c : vdivs v c = smul (/ c) v.
Proof. apply vec_eq; cbn; unfold Rdiv; ring. Qed.

Lemma norm_pos (v : vec R) : v <> V3 0 0 0 -> 0 < norm v.
Proof.
  intros Hv. apply sqrt_lt_R0. destruct v as [x y z]. unfold dot; cbn.
  destruct (Req_dec x 0) as [->|Hx]; [|nra].
  destruct (Req_dec y 0) as [->|Hy]; [|nra].
  destruct (Req_dec z 0) as [->|Hz]; [|nra].
  now contradiction Hv.
Qed.

Lemma unit_vector_norm (v : vec R) : v <> V3 0 0 0 -> norm (unit_vector v) = 1.
Proof.
  intros Hv. pose proof (norm_pos v Hv) as Hn.
  unfold unit_vector. rewrite vdivs_smul, norm_smul.
  rewrite Rabs_right by (left; now apply Rinv_0_lt_compat).
  field. lra.
Qed.






(** *** The two checks of [makeDipoleEntry] always pass *)

Section ValidBead.
Variable g : Globals R.
Variable direction : vec R.
Hypothesis direction_nonzero : direction <> V3 0 0 0.
Hypothesis fictitious_charge_pos : 0 < fictitious_charge g.
Hypothesis dipole_nonneg : 0 <= dipole_scalar g.

Lemma dipole_displacement_norm :
  norm (dipole_displacement g direction)
    = 0.2081943 * dipole_scalar g / (2 * fictitious_charge g).
Proof using direction_nonzero fictitious_charge_pos dipole_nonneg.
  unfold dipole_displacement. fold (unit_vector direction).
  rewrite vdivs_smul, !norm_smul, unit_vector_norm by assumption.
  cbn [lit_debye lit_2 fmul arith].
  rewrite Rabs_right by (left; apply Rinv_0_lt_compat; lra).
  rewrite Rabs_right by nra.
  field. lra.
Qed.


Hypothesis displacement_inside :
  0.2081943 * dipole_scalar g / (2 * fictitious_charge g) < radius g.




End ValidBead.

(** *** Fibrils *)


Lemma x_axis_exact_nonzero : x_axis_exact <> V3 0 0 0.
Proof. intros Heq. apply (f_equal vx) in Heq. cbn in Heq. lra. Qed.

(** *** The potential *)

Lemma potential_loop (target : vec R) charges : forall acc,
  fold_left (fun potential p =>
      fadd potential (fdiv (pc_charge p) (norm (vsub target (pc_pos p)))))
    charges acc
  = acc + fold_right Rplus 0
      (map (fun p => pc_charge p / norm (vsub target (pc_pos p))) charges).
Proof.
  induction charges as [|p rest IH]; intros acc; cbn [fold_left map fold_right].
  - ring.
  - rewrite IH. cbn [fadd fdiv arith]. ring.
Qed.


End ExactFacts.

(** ** The potential at the position of a charge, in binary64 *)

Lemma sub_self_zero_or_nan (x : float) : sf_zero_or_nan (Prim2SF (x - x)) = true.
Proof.
  rewrite sub_spec. unfold SF64sub.
  destruct (Prim2SF x) as [s|s| |s m e]; cbn [SFsub sf_zero_or_nan].
  - now destruct s.
  - now destruct s.
  - reflexivity.
  - rewrite Z.sub_diag. reflexivity.
Qed.

Lemma mul_zero_or_nan (x y : float) :
  sf_zero_or_nan (Prim2SF x) = true -> sf_zero_or_nan (Prim2SF y) = true ->
  sf_zero_or_nan (Prim2SF (x * y)) = true.
Proof.
  rewrite mul_spec. unfold SF64mul.
  destruct (Prim2SF x), (Prim2SF y); cbn; congruence.
Qed.

Lemma add_zero_or_nan (x y : float) :
  sf_zero_or_nan (Prim2SF x) = true -> sf_zero_or_nan (Prim2SF y) = true ->
  sf_zero_or_nan (Prim2SF (x + y)) = true.
Proof.
  rewrite add_spec. unfold SF64add.
  destruct (Prim2SF x) as [[]|[]| |], (Prim2SF y) as [[]|[]| |]; cbn; congruence.
Qed.

Lemma sqrt_zero_or_nan (x : float) :
  sf_zero_or_nan (Prim2SF x) = true ->
  sf_zero_or_nan (Prim2SF (PrimFloat.sqrt x)) = true.
Proof.
  rewrite sqrt_spec. unfold SF64sqrt.
  destruct (Prim2SF x) as [[]|[]| |]; cbn; congruence.
Qed.

Lemma div_by_zero_or_nan (q z : float) :
  sf_zero_or_nan (Prim2SF z) = true -> sf_nonfinite (Prim2SF (q / z)) = true.
Proof.
  rewrite div_spec. unfold SF64div.
  destruct (Prim2SF q), (Prim2SF z); cbn; congruence.
Qed.

Lemma add_nonfinite_r (a b : float) :
  sf_nonfinite (Prim2SF b) = true -> sf_nonfinite (Prim2SF (a + b)) = true.
Proof.
  rewrite add_spec. unfold SF64add.
  destruct (Prim2SF a) as [[]|[]| |], (Prim2SF b) as [[]|[]| |]; cbn; congruence.
Qed.

Lemma add_nonfinite_l (a b : float) :
  sf_nonfinite (Prim2SF a) = true -> sf_nonfinite (Prim2SF (a + b)) = true.
Proof.
  rewrite add_spec. unfold SF64add.
  destruct (Prim2SF a) as [[]|[]| |], (Prim2SF b) as [[]|[]| |]; cbn; congruence.
Qed.

Lemma mul_finite_nonfinite (c x : float) s m e :
  Prim2SF c = S754_finite s m e ->
  sf_nonfinite (Prim2SF x) = true -> sf_nonfinite (Prim2SF (c * x)) = true.
Proof.
  intros Hc. rewrite mul_spec, Hc. unfold SF64mul.
  destruct (Prim2SF x); cbn; congruence.
Qed.

Lemma nonfinite_not_finite (x : float) :
  sf_nonfinite (Prim2SF x) = true -> PrimFloat.is_finite x = false.
Proof.
  unfold PrimFloat.is_finite, PrimFloat.is_nan, PrimFloat.is_infinity.
  rewrite !FloatAxioms.eqb_spec, abs_spec.
  change (Prim2SF infinity) with (S754_infinity false).
  destruct (Prim2SF x) as [[]|[]| |]; cbn; congruence.
Qed.

(** The distance from a point to itself is [+0], or NaN when a coordinate is
    not finite. *)
Lemma norm_self_zero_or_nan (p : vec float) :
  sf_zero_or_nan (Prim2SF (norm (vsub p p))) = true.
Proof.
  unfold norm, dot, vsub. cbn [vx vy vz fsqrt fadd fmul fsub arith].
  apply sqrt_zero_or_nan.
  repeat first [apply add_zero_or_nan | apply mul_zero_or_nan
               | apply sub_self_zero_or_nan].
Qed.

Lemma potential_loop64_nonfinite target charges : forall potential,
  sf_nonfinite (Prim2SF potential) = true ->
  sf_nonfinite (Prim2SF (potential_loop64 target charges potential)) = true.
Proof.
  induction charges as [|p rest IH]; intros potential Hpot; cbn; [exact Hpot|].
  apply IH. now apply add_nonfinite_l.
Qed.

Lemma potential_loop64_at_charge target charges : forall potential p,
  In p charges -> pc_pos p = target ->
  sf_nonfinite (Prim2SF (potential_loop64 target charges potential)) = true.
Proof.
  induction charges as [|a rest IH]; intros potential p Hin Hpos; [destruct Hin|].
  cbn [potential_loop64 fold_left]. destruct Hin as [->|Hin].
  - apply potential_loop64_nonfinite. apply add_nonfinite_r.
    apply div_by_zero_or_nan. rewrite Hpos. apply norm_self_zero_or_nan.
  - now apply (IH _ p).
Qed.

(** C3, as the code has it: when the target is the position of one of the
    stored charges, [calcPotential] raises nothing; it returns a float that
    is not finite, an infinity or a NaN. *)
Theorem calcPotential_at_charge (st : state float) (target : vec float) p :
  In p (global_position_storage st) ->
  pc_pos p = target ->
  exists v, calcPotential target st = (Ok v, st) /\ PrimFloat.is_finite v = false.
Proof.
  intros Hin Hpos. eexists. split; [reflexivity|].
  apply nonfinite_not_finite.
  apply (mul_finite_nonfinite _ _ false 4925812092436480 (-43)%Z);
    [vm_compute; reflexivity|].
  exact (potential_loop64_at_charge target _ 0%float p Hin Hpos).
Qed.

(** C3 fails: on the one stored charge [[origin, 2, 15]], the potential at
    the origin is returned, and it is [+infinity]; with a charge of 0 it is
    NaN. *)
Lemma calcPotential_returns_infinity_counterexample :
  calcPotential origin (St ∅ [PC origin 2%float 15%float])
    = (Ok infinity, St ∅ [PC origin 2%float 15%float])
  /\ fst (calcPotential origin (St ∅ [PC origin 0%float 15%float])) = Ok nan.
Proof. vm_compute. split; reflexivity. Qed.

Lemma calcPotential_at_charge_witness :
  In (PC origin 2%float 15%float)
     (global_position_storage (St ∅ [PC origin 2%float 15%float]))
  /\ pc_pos (PC origin 2%float 15%float) = origin
  /\ exists v, calcPotential origin (St ∅ [PC origin 2%float 15%float])
                = (Ok v, St ∅ [PC origin 2%float 15%float])
              /\ PrimFloat.is_finite v = false.
Proof.
  assert (Hin : In (PC origin 2%float 15%float)
                   (global_position_storage (St ∅ [PC origin 2%float 15%float])))
    by (left; reflexivity).
  split; [exact Hin|]. split; [reflexivity|].
  exact (calcPotential_at_charge _ origin _ Hin eq_refl).
Defined.

(** In binary64 too, the potential of no charge is 0, and one unit charge at
    distance 2 gives [560 / 2]. *)
Example calcPotential_small_cases :
  fst (calcPotential x_axis (St ∅ [])) = Ok 0%float
  /\ fst (calcPotential (V3 2 0 0)%float (St ∅ [PC origin 1%float 15%float]))
     = Ok 280%float.
Proof. vm_compute. split; reflexivity. Qed.

(** ** The alignment of the system dipole, in exact arithmetic *)

Module AlignmentFacts.
Import Exact ExactShapes.
Local Open Scope R_scope.

Lemma to_debye_pos : 0 < to_debye.
Proof. unfold to_debye. apply Rdiv_lt_0_compat; lra. Qed.

Lemma scaled_length_pos v : v <> V3 0 0 0 -> 0 < scaled_length v.
Proof.
  intros Hv. apply sqrt_lt_R0. pose proof to_debye_pos as Ht.
  destruct v as [x y z]; cbn.
  assert (Hsq : 0 < x * x + y * y + z * z).
  { destruct (Req_dec x 0) as [->|Hx]; [|nra].
    destruct (Req_dec y 0) as [->|Hy]; [|nra].
    destruct (Req_dec z 0) as [->|Hz]; [|nra].
    now contradiction Hv. }
  replace (x * to_debye * (x * to_debye) + y * to_debye * (y * to_debye)
           + z * to_debye * (z * to_debye))
    with ((to_debye * to_debye) * (x * x + y * y + z * z)) by ring.
  apply Rmult_lt_0_compat; nra.
Qed.

Lemma hat_squares_sum v :
  v <> V3 0 0 0 ->
  hat vx v * hat vx v + hat vy v * hat vy v + hat vz v * hat vz v = 1.
Proof.
  intros Hv. pose proof (scaled_length_pos v Hv) as Hpos.
  assert (Hsq : scaled_length v * scaled_length v
                = (vx v * to_debye) * (vx v * to_debye)
                  + (vy v * to_debye) * (vy v * to_debye)
                  + (vz v * to_debye) * (vz v * to_debye)).
  { unfold scaled_length. apply sqrt_sqrt. nra. }
  unfold hat.
  replace (vx v * to_debye / scaled_length v * (vx v * to_debye / scaled_length v)
           + vy v * to_debye / scaled_length v * (vy v * to_debye / scaled_length v)
           + vz v * to_debye / scaled_length v * (vz v * to_debye / scaled_length v))
    with (((vx v * to_debye) * (vx v * to_debye)
           + (vy v * to_debye) * (vy v * to_debye)
           + (vz v * to_debye) * (vz v * to_debye))
          / (scaled_length v * scaled_length v)) by (field; lra).
  rewrite <- Hsq. field. lra.
Qed.

(** The rows of [unit_dipole_vectors] are the components of the unit
    vectors, sample by sample. *)
Lemma unit_rows (samples : list (vec R)) (component : vec R -> R) :
  zip2_with fdiv (map (fun v => component v * to_debye) samples)
    (map fsqrt
       (zip3_with (fun x y z => fadd (fadd (fmul x x) (fmul y y)) (fmul z z))
          (map (fun v => vx v * to_debye) samples)
          (map (fun v => vy v * to_debye) samples)
          (map (fun v => vz v * to_debye) samples)))
  = map (hat component) samples.
Proof.
  induction samples as [|v rest IH]; [reflexivity|].
  cbn [map zip3_with zip2_with]. rewrite IH. reflexivity.
Qed.

Lemma row_sum_fold (xs : list R) : row_sum xs = fold_right Rplus 0 xs.
Proof.
  destruct xs as [|x rest]; [reflexivity|]. cbn [row_sum fold_right].
  revert x. induction rest as [|y rest IH]; intros x; cbn [fold_left fold_right].
  - ring.
  - rewrite IH. cbn [fadd arith]. ring.
Qed.

Lemma mean_squares_total (samples : list (vec R)) (component : vec R -> R) :
  mean (squares (map (hat component) samples))
  = total (fun v => hat component v * hat component v) samples
      / INR (length samples).
Proof.
  unfold mean, squares, total. rewrite row_sum_fold, map_map, !length_map.
  cbn [fdiv of_int fmul arith]. now rewrite <- INR_IZR_INZ.
Qed.

Lemma total_unit_squares (samples : list (vec R)) :
  Forall (fun v => v <> V3 0 0 0) samples ->
  total (fun v => hat vx v * hat vx v) samples
  + total (fun v => hat vy v * hat vy v) samples
  + total (fun v => hat vz v * hat vz v) samples
  = INR (length samples).
Proof.
  unfold total. induction 1 as [|v rest Hv _ IH].
  - cbn. ring.
  - cbn [map fold_right length]. rewrite S_INR, <- IH.
    pose proof (hat_squares_sum v Hv). lra.
Qed.




End AlignmentFacts.

(** ** The loaders *)

Section Loaders.
Context {F : Type} `{Arith F}.







End Loaders.

(** *** Runs of the loaders *)



Example getBareDipoleMoment_runs :
  getBareDipoleMoment {[ "out.json"%string := Document out_json ]} "out.json"
    = Ok (80 * (1 / 0.2081943))%float
  /\ getBareDipoleMoment
       {[ "out.json"%string := Document (JDict [ ("analysis"%string, JList []) ]) ]}
       "out.json"
     = Raise (AssertionError "")
  /\ getBareDipoleMoment {[ "out.json"%string := (Unreadable : file float) ]} "out.json"
     = Raise (JSONDecodeError "out.json")
  /\ getSystemDipoleMoment {[ "one_line.dat"%string := Table [ [0; 10; 1.5]%float ] ]}
       "one_line.dat"
     = Raise IndexError.
Proof. vm_compute. repeat split; reflexivity. Qed.

(** In binary64 the alignment of samples that are all [(0, 0, 1)] is
    [(0, 0, 1)] exactly. *)
Example alignment_along_z :
  systemDipoleAlignment along_z = Ok (V3 0 0 1)%float.
Proof. vm_compute. reflexivity. Qed.

(** In binary64 the sum of the entries is 1 up to rounding only: for the
    one sample [(1, 0, 1)] the three entries add up to [1 + 2^-52]. *)
Example alignment_sum_rounds :
  match systemDipoleAlignment one_sample with
  | Ok a => (vx a + vy a + vz a)%float = 1.0000000000000002%float
  | Raise _ => False
  end.
Proof. vm_compute. reflexivity. Qed.



(** * Further properties of the generators *)

Section Generators.
Context {F : Type} `{Arith F}.
Variable g : Globals F.

Lemma monopole_lines_charges d counters : forall p,
  map charge_of_line (monopole_lines g d p counters)
    = monopole_charges g d p (length counters).
Proof.
  induction counters as [|c rest IH]; intros p; cbn; [reflexivity|].
  rewrite IH. unfold charge_of_line at 1, line_pos. cbn. now rewrite vec_eta.
Qed.

Lemma bead_lines_charges counter p d :
  map charge_of_line (bead_lines g counter p d) = bead_charges g p d.
Proof.
  unfold bead_lines, bead_charges, charge_of_line, line_pos. cbn.
  now rewrite !vec_eta.
Qed.

Lemma dipole_lines_charges d direction counters : forall p,
  map charge_of_line (dipole_lines g d direction p counters)
    = dipole_charges g d direction p (length counters).
Proof.
  induction counters as [|c rest IH]; intros p; cbn [dipole_lines dipole_charges length];
    [reflexivity|].
  now rewrite map_app, bead_lines_charges, IH.
Qed.

(** A loop of [makeDipoleFibril] that returns has passed the two checks on
    every bead. *)
Lemma dipole_loop_checked l d direction counters : forall s (st : state F) p s' st',
  heap st !! l = Some p ->
  for_ counters (dipole_body g l d direction) s st = (Ok s', st') ->
  beads_ok g d direction p (length counters) = true.
Proof.
  induction counters as [|c rest IH]; intros s st p s' st' Hl; cbn [for_ length beads_ok];
    [reflexivity|].
  unfold bind at 1. unfold dipole_body at 1.
  unfold bind at 1. unfold read at 1. rewrite Hl.
  unfold bind at 1. rewrite makeDipoleEntry_run.
  destruct (inside_bead g direction); [|discriminate].
  destruct (dipole_matches g p direction); [|discriminate].
  unfold bind, iadd, bind, read, ret.
  cbn [heap global_position_storage]. rewrite Hl.
  intros Hrun. apply IH with (p := vadd p d) in Hrun; [now rewrite Hrun|].
  cbn [heap]. apply lookup_insert_eq.
Qed.

Lemma makeDipoleFibril_checked n l direction (st : state F) p s st' :
  heap st !! l = Some p ->
  makeDipoleFibril g n l direction st = (Ok s, st') ->
  beads_ok g (fibril_displacement g direction) direction p (Z.to_nat n) = true.
Proof.
  intros Hl. unfold makeDipoleFibril, bind at 1, deepcopy, bind at 1, read at 1.
  rewrite Hl. intros Hrun. rewrite <- range_length.
  apply (dipole_loop_checked (fresh (dom (heap st))) _ direction (range n) [] _ p) in Hrun;
    [exact Hrun|].
  cbn [heap]. apply lookup_insert_eq.
Qed.

(** X1: [makeMonopoleFibril] always returns, with one line per bead, and has
    appended to [global_position_storage] exactly the charges of the lines
    it returns, in their order; the records stored before are kept. *)
Theorem makeMonopoleFibril_stores_its_lines n initial_position direction
    (st : state F) p0 :
  heap st !! initial_position = Some p0 ->
  exists s st',
    makeMonopoleFibril g n initial_position direction st = (Ok s, st')
    /\ length s = Z.to_nat n
    /\ global_position_storage st'
       = global_position_storage st ++ map charge_of_line s.
Proof.
  intros Hl. rewrite (makeMonopoleFibril_run g n _ direction st p0 Hl).
  eexists _, _. split; [reflexivity|]. split.
  - now rewrite monopole_lines_length, range_length.
  - cbn [global_position_storage].
    now rewrite monopole_lines_charges, range_length.
Qed.

(** X2: [makeDipoleFibril] returns exactly when every bead along the chain
    passes the two checks of [makeDipoleEntry]; and then it has appended
    exactly the charges of the lines it returns, three per bead. *)
Theorem makeDipoleFibril_returns_iff_checked n initial_position direction
    (st : state F) p0 :
  heap st !! initial_position = Some p0 ->
  let run := makeDipoleFibril g n initial_position direction st in
  is_ok (fst run)
    = beads_ok g (fibril_displacement g direction) direction p0 (Z.to_nat n)
  /\ (forall s, fst run = Ok s ->
       length s = (3 * Z.to_nat n)%nat
       /\ global_position_storage (snd run)
          = global_position_storage st ++ map charge_of_line s).
Proof.
  intros Hl run. subst run.
  destruct (beads_ok g (fibril_displacement g direction) direction p0 (Z.to_nat n))
    eqn:Hok.
  - rewrite (makeDipoleFibril_run g n _ direction st p0 Hl Hok). cbn [fst snd is_ok].
    split; [reflexivity|]. intros s Hs. injection Hs as <-. split.
    + now rewrite dipole_lines_length, range_length.
    + cbn [global_position_storage]. now rewrite dipole_lines_charges, range_length.
  - destruct (makeDipoleFibril g n initial_position direction st) as [[s|e] st'] eqn:Hrun.
    + apply (makeDipoleFibril_checked n _ direction st p0 s st' Hl) in Hrun. congruence.
    + cbn [fst is_ok]. split; [reflexivity|]. discriminate.
Qed.

(** The bead lines of a dipole fibril are the lines of the monopole fibril. *)
Lemma dipole_lines_every_third d direction counters : forall p,
  every_third (dipole_lines g d direction p counters) = monopole_lines g d p counters.
Proof.
  induction counters as [|c rest IH]; intros p; cbn; [reflexivity|].
  now rewrite IH.
Qed.

(** X3: a dipole fibril that is returned has, as the first of every three
    lines, exactly the line the monopole builder returns for that bead: the
    same atom index, position, charge and radius. *)
Theorem dipole_fibril_beads_are_monopole_fibril n initial_position direction
    (st st' : state F) p0 s :
  heap st !! initial_position = Some p0 ->
  makeDipoleFibril g n initial_position direction st = (Ok s, st') ->
  fst (makeMonopoleFibril g n initial_position direction st) = Ok (every_third s).
Proof.
  intros Hl Hrun.
  rewrite (makeDipoleFibril_returns g n _ direction st p0 s st' Hl Hrun).
  rewrite (makeMonopoleFibril_run g n _ direction st p0 Hl). cbn [fst].
  now rewrite dipole_lines_every_third.
Qed.

Lemma monopole_charges_app d k m : forall p,
  monopole_charges g d p k ++ monopole_charges g d (advance d k p) m
    = monopole_charges g d p (k + m).
Proof.
  induction k as [|k IH]; intros p; cbn; [reflexivity|]. now rewrite IH.
Qed.

(** X4: two calls of [makeMonopoleFibril] on the same array lay one unbroken
    chain: the second fibril starts where the first one ended, and together
    the calls have stored the records of a single fibril of [n + m] beads. *)
Theorem makeMonopoleFibril_twice n m initial_position direction (st : state F) p0 :
  heap st !! initial_position = Some p0 ->
  let d := fibril_displacement g direction in
  let st1 := snd (makeMonopoleFibril g n initial_position direction st) in
  let run2 := makeMonopoleFibril g m initial_position direction st1 in
  fst run2 = Ok (monopole_lines g d (advance d (Z.to_nat n) p0) (range m))
  /\ global_position_storage (snd run2)
     = global_position_storage st
         ++ monopole_charges g d p0 (Z.to_nat n + Z.to_nat m).
Proof.
  intros Hl d st1 run2. subst st1 run2.
  rewrite (makeMonopoleFibril_run g n _ direction st p0 Hl). cbn [snd].
  erewrite makeMonopoleFibril_run by (cbn [heap]; apply lookup_insert_eq).
  cbn [fst snd global_position_storage]. split; [reflexivity|].
  now rewrite <- app_assoc, monopole_charges_app.
Qed.

(** X5: [makeDipoleFibril] is repeatable: a second call with the same
    arguments returns the same text as the first, and the global list then
    holds the records of the fibril twice. *)
Theorem makeDipoleFibril_twice n initial_position direction (st st1 : state F) p0 s :
  heap st !! initial_position = Some p0 ->
  makeDipoleFibril g n initial_position direction st = (Ok s, st1) ->
  let run2 := makeDipoleFibril g n initial_position direction st1 in
  fst run2 = Ok s
  /\ global_position_storage (snd run2)
     = global_position_storage st ++ map charge_of_line s ++ map charge_of_line s.
Proof.
  intros Hl Hrun run2. subst run2.
  pose proof (makeDipoleFibril_checked n _ direction st p0 s st1 Hl Hrun) as Hok.
  pose proof (makeDipoleFibril_returns g n _ direction st p0 s st1 Hl Hrun) as Hs.
  rewrite (makeDipoleFibril_run g n _ direction st p0 Hl Hok) in Hrun.
  injection Hrun as _ <-.
  assert (Hl1 : heap (St (<[fresh (dom (heap st)) :=
                    advance (fibril_displacement g direction) (Z.to_nat n) p0]> (heap st))
                  (global_position_storage st
                     ++ dipole_charges g (fibril_displacement g direction) direction p0
                          (Z.to_nat n))) !! initial_position = Some p0).
  { cbn [heap]. rewrite lookup_insert_ne; [exact Hl|].
    intros Heq. pose proof (is_fresh (dom (heap st))) as Hfresh.
    rewrite Heq in Hfresh. apply Hfresh. apply elem_of_dom. now exists p0. }
  rewrite (makeDipoleFibril_run g n _ direction _ p0 Hl1 Hok).
  cbn [fst snd global_position_storage]. split; [now rewrite Hs|].
  now rewrite Hs, dipole_lines_charges, range_length, <- app_assoc.
Qed.

(** X6: whatever the outcome of [makeDipoleFibril], the records stored
    before the call are kept; and a call that raises has left records of the
    fibril behind in the global list. *)
Theorem makeDipoleFibril_keeps_storage n initial_position direction (st : state F) p0 :
  heap st !! initial_position = Some p0 ->
  let run := makeDipoleFibril g n initial_position direction st in
  exists added,
    global_position_storage (snd run) = global_position_storage st ++ added
    /\ (is_ok (fst run) = false -> added <> []).
Proof.
  intros Hl run. subst run.
  set (l' := fresh (dom (heap st))).
  assert (Heq : makeDipoleFibril g n initial_position direction st
                = for_ (range n)
                    (dipole_body g l' (fibril_displacement g direction) direction) []
                    (St (<[l' := p0]> (heap st)) (global_position_storage st))).
  { unfold makeDipoleFibril, bind at 1, deepcopy, bind at 1, read at 1.
    rewrite Hl. reflexivity. }
  rewrite Heq. clear Heq.
  assert (Hgen : forall counters s (st0 : state F) p,
    heap st0 !! l' = Some p ->
    let run := for_ counters
                 (dipole_body g l' (fibril_displacement g direction) direction) s st0 in
    exists added,
      global_position_storage (snd run) = global_position_storage st0 ++ added
      /\ (is_ok (fst run) = false -> added <> [])).
  { induction counters as [|c rest IH]; intros s st0 p Hp; cbn [for_].
    - exists []. cbn. split; [now rewrite app_nil_r|discriminate].
    - unfold bind at 1. unfold dipole_body at 1.
      unfold bind at 1. unfold read at 1. rewrite Hp.
      unfold bind at 1. rewrite makeDipoleEntry_run.
      destruct (inside_bead g direction);
        [|eexists; cbn; split; [reflexivity|intros _; discriminate]].
      destruct (dipole_matches g p direction);
        [|eexists; cbn; split; [reflexivity|intros _; discriminate]].
      unfold bind, iadd, bind, read, ret.
      cbn [heap global_position_storage]. rewrite Hp.
      cbn [heap global_position_storage].
      match goal with |- context [for_ rest _ ?s1 ?st1] =>
        destruct (IH s1 st1 (vadd p (fibril_displacement g direction)))
          as (added & Hadd & _); [cbn [heap]; apply lookup_insert_eq|] end.
      cbn zeta in Hadd. cbn [global_position_storage] in Hadd.
      exists (bead_charges g p (dipole_displacement g direction) ++ added). split.
      + rewrite Hadd. now rewrite <- app_assoc.
      + intros _. discriminate. }
  destruct (Hgen (range n) [] (St (<[l' := p0]> (heap st)) (global_position_storage st)) p0)
    as (added & Hadd & Hne); [cbn [heap]; apply lookup_insert_eq|].
  exists added. split; [exact Hadd|exact Hne].
Qed.

End Generators.

Lemma makeMonopoleFibril_stores_its_lines_witness :
  heap example_state !! 1%positive = Some origin
  /\ exists s st',
       makeMonopoleFibril notebook 3 1%positive x_axis example_state = (Ok s, st')
       /\ length s = Z.to_nat 3
       /\ global_position_storage st'
          = global_position_storage example_state ++ map charge_of_line s.
Proof.
  assert (Hl : heap example_state !! 1%positive = Some origin)
    by (vm_compute; reflexivity).
  split; [exact Hl|].
  exact (makeMonopoleFibril_stores_its_lines notebook 3 1%positive x_axis
           example_state origin Hl).
Defined.

Lemma makeDipoleFibril_returns_iff_checked_witness :
  heap example_state !! 1%positive = Some origin
  /\ is_ok (fst (makeDipoleFibril notebook 3 1%positive x_axis example_state))
     = beads_ok notebook (fibril_displacement notebook x_axis) x_axis origin (Z.to_nat 3).
Proof.
  assert (Hl : heap example_state !! 1%positive = Some origin)
    by (vm_compute; reflexivity).
  split; [exact Hl|].
  exact (proj1 (makeDipoleFibril_returns_iff_checked notebook 3 1%positive x_axis
                  example_state origin Hl)).
Defined.

Lemma dipole_fibril_beads_are_monopole_fibril_witness :
  let s := dipole_lines notebook (fibril_displacement notebook x_axis) x_axis origin
             (range 3) in
  let st' := snd (makeDipoleFibril notebook 3 1%positive x_axis example_state) in
  heap example_state !! 1%positive = Some origin
  /\ makeDipoleFibril notebook 3 1%positive x_axis example_state = (Ok s, st')
  /\ fst (makeMonopoleFibril notebook 3 1%positive x_axis example_state)
     = Ok (every_third s).
Proof.
  intros s st'.
  assert (Hl : heap example_state !! 1%positive = Some origin)
    by (vm_compute; reflexivity).
  assert (Hrun : makeDipoleFibril notebook 3 1%positive x_axis example_state = (Ok s, st'))
    by (vm_compute; reflexivity).
  split; [exact Hl|]. split; [exact Hrun|].
  exact (dipole_fibril_beads_are_monopole_fibril notebook 3 1%positive x_axis
           example_state st' origin s Hl Hrun).
Defined.

Lemma makeMonopoleFibril_twice_witness :
  let d := fibril_displacement notebook x_axis in
  let st1 := snd (makeMonopoleFibril notebook 2 1%positive x_axis example_state) in
  let run2 := makeMonopoleFibril notebook 3 1%positive x_axis st1 in
  heap example_state !! 1%positive = Some origin
  /\ fst run2 = Ok (monopole_lines notebook d (advance d (Z.to_nat 2) origin) (range 3))
  /\ global_position_storage (snd run2)
     = global_position_storage example_state
         ++ monopole_charges notebook d origin (Z.to_nat 2 + Z.to_nat 3).
Proof.
  intros d st1 run2.
  assert (Hl : heap example_state !! 1%positive = Some origin)
    by (vm_compute; reflexivity).
  split; [exact Hl|].
  exact (makeMonopoleFibril_twice notebook 2 3 1%positive x_axis example_state origin Hl).
Defined.

Lemma makeDipoleFibril_twice_witness :
  let s := dipole_lines notebook (fibril_displacement notebook x_axis) x_axis origin
             (range 3) in
  let st1 := snd (makeDipoleFibril notebook 3 1%positive x_axis example_state) in
  let run2 := makeDipoleFibril notebook 3 1%positive x_axis st1 in
  heap example_state !! 1%positive = Some origin
  /\ makeDipoleFibril notebook 3 1%positive x_axis example_state = (Ok s, st1)
  /\ fst run2 = Ok s
  /\ global_position_storage (snd run2)
     = global_position_storage example_state
         ++ map charge_of_line s ++ map charge_of_line s.
Proof.
  intros s st1 run2.
  assert (Hl : heap example_state !! 1%positive = Some origin)
    by (vm_compute; reflexivity).
  assert (Hrun : makeDipoleFibril notebook 3 1%positive x_axis example_state = (Ok s, st1))
    by (vm_compute; reflexivity).
  split; [exact Hl|]. split; [exact Hrun|].
  exact (makeDipoleFibril_twice notebook 3 1%positive x_axis example_state st1 origin s
           Hl Hrun).
Defined.

Lemma makeDipoleFibril_keeps_storage_witness :
  let run := makeDipoleFibril small_charge 3 1%positive x_axis example_state in
  heap example_state !! 1%positive = Some origin
  /\ exists added,
       global_position_storage (snd run) = global_position_storage example_state ++ added
       /\ (is_ok (fst run) = false -> added <> []).
Proof.
  intros run.
  assert (Hl : heap example_state !! 1%positive = Some origin)
    by (vm_compute; reflexivity).
  split; [exact Hl|].
  exact (makeDipoleFibril_keeps_storage small_charge 3 1%positive x_axis example_state
           origin Hl).
Defined.

(** With a fictitious charge of [0.1] the first bead fails the first check,
    and its one record stays behind. *)
Example makeDipoleFibril_leaves_record :
  makeDipoleFibril small_charge 3 1%positive x_axis example_state
  = (Raise (AssertionError "increase `fictitious_charge`"),
     St (<[2%positive := origin]> (heap example_state)) [PC origin 2 15]%float).
Proof. vm_compute. reflexivity. Qed.


(** * Further properties in exact arithmetic *)

Module ExactExtras.
Import Exact ExactShapes ExactFacts.
Local Open Scope R_scope.

(** X7: in exact arithmetic the three records of a valid bead lie strictly
    inside the bead, their charges add up to the net charge of the bead, and
    their dipole moment about the bead centre is [0.2081943 * dipole_scalar]
    times the unit vector of the direction. *)
Theorem bead_charges_geometry (g : Globals R) (position direction : vec R) :
  direction <> V3 0 0 0 ->
  0 < fictitious_charge g ->
  0 <= dipole_scalar g ->
  0.2081943 * dipole_scalar g / (2 * fictitious_charge g) < radius g ->
  let records := bead_charges g position (dipole_displacement g direction) in
  Forall (fun q => norm (vsub (pc_pos q) position) < radius g) records
  /\ total_charge records = charge g
  /\ dipole_about position records
     = smul (0.2081943 * dipole_scalar g) (unit_vector direction).
Proof.
  intros Hdir Hfc Hd Hin records. subst records.
  pose proof (dipole_displacement_norm g direction Hdir Hfc Hd) as Hnorm.
  assert (Hr : 0 < radius g).
  { eapply Rle_lt_trans; [|exact Hin]. rewrite <- Hnorm. apply norm_nonneg. }
  set (d := dipole_displacement g direction) in *.
  split; [|split].
  - unfold bead_charges. repeat constructor; cbn [pc_pos].
    + replace (vsub position position) with (smul 0 d) by (apply vec_eq; cbn; ring).
      rewrite norm_smul, Rabs_R0. lra.
    + replace (vsub (vadd position d) position) with (smul 1 d)
        by (apply vec_eq; cbn; ring).
      rewrite norm_smul, Rabs_R1. lra.
    + replace (vsub (vsub position d) position) with (smul (Ropp 1) d)
        by (apply vec_eq; cbn; ring).
      rewrite norm_smul, Rabs_Ropp, Rabs_R1. lra.
  - unfold total_charge, bead_charges. cbn. ring.
  - unfold dipole_about, bead_charges. cbn [map fold_right pc_charge pc_pos].
    subst d. unfold dipole_displacement, unit_vector.
    pose proof (norm_pos direction Hdir) as Hn.
    set (nd := norm direction) in *.
    apply vec_eq;
      cbn [vx vy vz vadd vsub smul vdivs fadd fsub fmul fdiv fneg lit_debye lit_2 lit_1 arith];
      field; lra.
Qed.

Lemma bead_charges_geometry_witness :
  x_axis_exact <> V3 0 0 0
  /\ 0 < fictitious_charge notebook_exact
  /\ 0 <= dipole_scalar notebook_exact
  /\ 0.2081943 * dipole_scalar notebook_exact / (2 * fictitious_charge notebook_exact)
     < radius notebook_exact
  /\ total_charge
       (bead_charges notebook_exact origin_exact
          (dipole_displacement notebook_exact x_axis_exact))
     = charge notebook_exact.
Proof.
  assert (Hfc : 0 < fictitious_charge notebook_exact) by (cbn; lra).
  assert (Hd : 0 <= dipole_scalar notebook_exact) by (cbn; lra).
  assert (Hin : 0.2081943 * dipole_scalar notebook_exact
                / (2 * fictitious_charge notebook_exact) < radius notebook_exact)
    by (cbn; lra).
  repeat (split; [first [exact x_axis_exact_nonzero | assumption]|]).
  exact (proj1 (proj2 (bead_charges_geometry notebook_exact origin_exact x_axis_exact
                         x_axis_exact_nonzero Hfc Hd Hin))).
Defined.

(** The value [calcPotential] returns, read off the loop. *)
Lemma calcPotential_value (st : state R) (target : vec R) :
  calcPotential target st
  = (Ok (560 * fold_right Rplus 0
                 (map (fun p => pc_charge p / norm (vsub target (pc_pos p)))
                    (global_position_storage st))), st).
Proof.
  unfold calcPotential. do 2 f_equal. rewrite potential_loop.
  cbn [fmul of_int lit_0 arith]. change (IZR (7 * 80)) with 560. ring.
Qed.

(** X8: in exact arithmetic the potential is additive in the stored charges:
    when the global list holds the records of two stores one after the
    other, [calcPotential] returns the sum of the two potentials. *)
Theorem calcPotential_superposition (st1 st2 st12 : state R) (target : vec R) :
  global_position_storage st12
    = global_position_storage st1 ++ global_position_storage st2 ->
  exists v1 v2,
    calcPotential target st1 = (Ok v1, st1)
    /\ calcPotential target st2 = (Ok v2, st2)
    /\ calcPotential target st12 = (Ok (v1 + v2), st12).
Proof.
  intros Happ. rewrite !calcPotential_value, Happ.
  eexists _, _. split; [reflexivity|]. split; [reflexivity|].
  do 2 f_equal. rewrite map_app.
  induction (map _ (global_position_storage st1)) as [|x rest IH]; cbn [app fold_right].
  - ring.
  - lra.
Qed.

Lemma calcPotential_superposition_witness :
  global_position_storage (St ∅ [PC origin_exact 1 15; PC x_axis_exact 1 15])
    = global_position_storage (St ∅ [PC origin_exact 1 15])
        ++ global_position_storage (St ∅ [PC x_axis_exact 1 15])
  /\ exists v1 v2,
      calcPotential (V3 0 1 0) (St ∅ [PC origin_exact 1 15])
        = (Ok v1, St ∅ [PC origin_exact 1 15])
      /\ calcPotential (V3 0 1 0) (St ∅ [PC x_axis_exact 1 15])
        = (Ok v2, St ∅ [PC x_axis_exact 1 15])
      /\ calcPotential (V3 0 1 0) (St ∅ [PC origin_exact 1 15; PC x_axis_exact 1 15])
        = (Ok (v1 + v2), St ∅ [PC origin_exact 1 15; PC x_axis_exact 1 15]).
Proof.
  split; [reflexivity|].
  exact (calcPotential_superposition
           (St ∅ [PC origin_exact 1 15]) (St ∅ [PC x_axis_exact 1 15])
           (St ∅ [PC origin_exact 1 15; PC x_axis_exact 1 15]) (V3 0 1 0) eq_refl).
Defined.

(** X9: in exact arithmetic the potential depends on the positions relative
    to the target only: moving every stored charge and the target by the
    same vector leaves the value unchanged. *)
Theorem calcPotential_translation (st st' : state R) (target t : vec R) :
  global_position_storage st' = map (shifted t) (global_position_storage st) ->
  fst (calcPotential (vadd target t) st') = fst (calcPotential target st).
Proof.
  intros Hshift. rewrite !calcPotential_value, Hshift. cbn [fst]. do 3 f_equal.
  rewrite map_map. apply map_ext. intros q. unfold shifted. cbn [pc_pos pc_charge].
  do 2 f_equal. apply vec_eq; cbn; ring.
Qed.

Lemma calcPotential_translation_witness :
  global_position_storage (St ∅ [PC x_axis_exact 1 15])
    = map (shifted x_axis_exact) (global_position_storage (St ∅ [PC origin_exact 1 15]))
  /\ fst (calcPotential (vadd (V3 0 1 0) x_axis_exact) (St ∅ [PC x_axis_exact 1 15]))
     = fst (calcPotential (V3 0 1 0) (St ∅ [PC origin_exact 1 15])).
Proof.
  assert (Hs : global_position_storage (St ∅ [PC x_axis_exact 1 15])
               = map (shifted x_axis_exact)
                   (global_position_storage (St ∅ [PC origin_exact 1 15]))).
  { cbn. unfold shifted. cbn. do 2 f_equal. apply vec_eq; cbn; ring. }
  split; [exact Hs|].
  exact (calcPotential_translation (St ∅ [PC origin_exact 1 15])
           (St ∅ [PC x_axis_exact 1 15]) (V3 0 1 0) x_axis_exact Hs).
Defined.

End ExactExtras.


(** * Further properties of the loaders *)

Section LoaderExtras.
Context {F : Type} `{Arith F}.

Lemma multipole_in_items_first (before after : list (string * json F)) val :
  Forall (fun kv => fst kv <> "multipole"%string) before ->
  multipole_in_items (fdiv lit_1 lit_debye) (before ++ ("multipole"%string, val) :: after)
    = rbind (dipole_of_entry val) (fun v => Ok (Some v)).
Proof.
  induction 1 as [|[key w] more Hkey _ IH]; cbn [app multipole_in_items].
  - rewrite String.eqb_refl. unfold dipole_of_entry.
    destruct (getitem val "molecules") as [m|]; [|reflexivity]. cbn [rbind].
    destruct (getitem m "protein") as [p|]; [|reflexivity]. cbn [rbind].
    destruct (getitem p "μ") as [mu|]; [|reflexivity]. cbn [rbind].
    destruct (times_float mu _); reflexivity.
  - cbn in Hkey. apply String.eqb_neq in Hkey. rewrite Hkey. exact IH.
Qed.

Lemma multipole_in_items_none (items : list (string * json F)) to_debye :
  Forall (fun kv => fst kv <> "multipole"%string) items ->
  multipole_in_items to_debye items = Ok None.
Proof.
  induction 1 as [|[key w] more Hkey _ IH]; [reflexivity|].
  cbn [multipole_in_items]. cbn in Hkey. apply String.eqb_neq in Hkey.
  now rewrite Hkey.
Qed.

(** X10: [getBareDipoleMoment] is decided by the first entry keyed
    ["multipole"] alone: with analyses before it that are dicts without that
    key, the call returns what that entry gives, its number times
    [1.0 / 0.2081943] or its error, and whatever follows the entry, in the
    same analysis or in later ones, is never looked at. *)
Theorem getBareDipoleMoment_first_multipole (fs : filesystem F) (filename : string)
    doc (pre post : list (json F)) (before after : list (string * json F)) val :
  fs !! filename = Some (Document doc) ->
  getitem doc "analysis"
    = Ok (JList (pre ++ JDict (before ++ ("multipole"%string, val) :: after) :: post)) ->
  Forall lacks_multipole pre ->
  Forall (fun kv => fst kv <> "multipole"%string) before ->
  getBareDipoleMoment fs filename = dipole_of_entry val.
Proof.
  intros Hfile Hget Hpre Hbefore.
  unfold getBareDipoleMoment, json_load. rewrite Hfile. cbn [rbind].
  rewrite Hget. cbn [rbind iterate].
  assert (Hloop : multipole_in_analyses (fdiv lit_1 lit_debye)
                    (pre ++ JDict (before ++ ("multipole"%string, val) :: after) :: post)
                  = rbind (dipole_of_entry val) (fun v => Ok (Some v))).
  { clear Hget. induction Hpre as [|a more (items & -> & Hitems) _ IH];
      cbn [app multipole_in_analyses dict_items rbind].
    - rewrite (multipole_in_items_first before after val Hbefore).
      destruct (dipole_of_entry val); reflexivity.
    - rewrite (multipole_in_items_none items _ Hitems). cbn [rbind]. exact IH. }
  rewrite Hloop. destruct (dipole_of_entry val); reflexivity.
Qed.

Lemma select_column_all c (rows : list (list F)) :
  Forall (fun row => (c < length row)%nat) rows ->
  exists col, select_column c rows = Ok col
    /\ length col = length rows
    /\ forall row x, last rows = Some row -> nth_error row c = Some x ->
         last col = Some x.
Proof.
  induction 1 as [|row rest Hrow Hrest (col & Hcol & Hlen & Hlast)];
    cbn [select_column].
  - exists []. repeat split; auto. discriminate.
  - destruct (nth_error row c) as [v|] eqn:Hv;
      [|apply nth_error_None in Hv; lia].
    rewrite Hcol. cbn [rbind]. exists (v :: col). split; [reflexivity|].
    split; [cbn; now rewrite Hlen|].
    intros row' x Hl Hx. destruct rest as [|r rest'].
    + destruct col; [|discriminate]. cbn in Hl. injection Hl as <-.
      cbn. congruence.
    + destruct col as [|y col']; [discriminate|].
      rewrite last_cons_cons in Hl. rewrite last_cons_cons. eauto.
Qed.

(** X11: on a table whose every data line has a column 2,
    [getSystemDipoleMoment] returns the entry of the last line times
    [1.0 / 0.2081943] when there are two lines or more; on a table of one
    such line or of none it raises [IndexError]: the one value is a 0-d
    array, which [[-1]] cannot index, and so is an empty one. *)
Theorem getSystemDipoleMoment_table (fs : filesystem F) (filename : string)
    (rows : list (list F)) :
  fs !! filename = Some (Table rows) ->
  ((length rows <= 1)%nat ->
   Forall (fun row => (2 < length row)%nat) rows ->
   getSystemDipoleMoment fs filename = Raise IndexError)
  /\ (forall row x,
       (2 <= length rows)%nat ->
       Forall (fun row => (2 < length row)%nat) rows ->
       last rows = Some row ->
       nth_error row 2 = Some x ->
       getSystemDipoleMoment fs filename = Ok (fmul x (fdiv lit_1 lit_debye))).
Proof.
  intros Hfile. unfold getSystemDipoleMoment, loadtxt. rewrite Hfile. split.
  - intros Hlen Hall. destruct rows as [|row [|r rest]]; cbn in Hlen; try lia.
    + reflexivity.
    + cbn [select_column]. apply Forall_inv in Hall.
      destruct (nth_error row 2) eqn:Hrow; [reflexivity|].
      apply nth_error_None in Hrow. lia.
  - intros row x Hlen Hall Hlast Hx.
    destruct (select_column_all 2 rows Hall) as (col & -> & Hcl & Hl).
    cbn [rbind]. specialize (Hl row x Hlast Hx).
    destruct col as [|a [|b col']]; cbn [length] in Hcl; try lia.
    cbn [last_item]. rewrite Hl. reflexivity.
Qed.

(** X12: once the three component files have loaded, [systemDipoleAlignment]
    raises exactly when the three columns are not equally long ([np.vstack]);
    it returns for equally long columns whatever they hold, also for an
    empty series or a zero sample. *)
Theorem systemDipoleAlignment_raises_iff_unequal (fs : filesystem F) mux muy muz :
  loadtxt fs "mu_x.dat.gz" 1 = Ok mux ->
  loadtxt fs "mu_y.dat.gz" 1 = Ok muy ->
  loadtxt fs "mu_z.dat.gz" 1 = Ok muz ->
  is_ok (systemDipoleAlignment fs)
    = Nat.eqb (length (as_row mux)) (length (as_row muy))
      && Nat.eqb (length (as_row muy)) (length (as_row muz)).
Proof.
  intros Hx Hy Hz. unfold systemDipoleAlignment, systemDipoleMomentVector.
  rewrite Hx, Hy, Hz. cbn [rbind]. unfold vstack.
  assert (Hlen : forall a c, length (as_row (array_times a c)) = length (as_row a)).
  { intros [x|xs] c; cbn; [reflexivity|apply length_map]. }
  rewrite !Hlen.
  destruct (Nat.eqb _ _ && Nat.eqb _ _); reflexivity.
Qed.

End LoaderExtras.

Lemma getBareDipoleMoment_first_multipole_witness :
  let fs : filesystem float := {[ "out.json"%string := Document out_json ]} in
  let pre : list (json float) := [ JDict [ ("sanity"%string, JDict []) ] ] in
  let val : json float :=
    JDict [ ("molecules"%string,
             JDict [ ("protein"%string,
                      JDict [ ("Z"%string, JNum 13%float);
                              ("μ"%string, JNum 80%float) ]) ]) ] in
  fs !! "out.json"%string = Some (Document out_json)
  /\ getitem out_json "analysis"
     = Ok (JList (pre ++ JDict ([] ++ ("multipole"%string, val) :: []) :: []))
  /\ Forall lacks_multipole pre
  /\ getBareDipoleMoment fs "out.json" = dipole_of_entry val.
Proof.
  intros fs pre val.
  assert (Hfile : fs !! "out.json"%string = Some (Document out_json))
    by (vm_compute; reflexivity).
  assert (Hget : getitem out_json "analysis"
                 = Ok (JList (pre ++ JDict ([] ++ ("multipole"%string, val) :: []) :: [])))
    by reflexivity.
  assert (Hpre : Forall lacks_multipole pre).
  { repeat constructor. eexists. split; [reflexivity|].
    repeat constructor. discriminate. }
  split; [exact Hfile|]. split; [exact Hget|]. split; [exact Hpre|].
  exact (getBareDipoleMoment_first_multipole fs "out.json" out_json pre [] [] [] val
           Hfile Hget Hpre (List.Forall_nil _)).
Defined.

Lemma getSystemDipoleMoment_table_witness :
  let fs : filesystem float :=
    {[ "system_dipole_moment.dat"%string := Table dipole_series ]} in
  fs !! "system_dipole_moment.dat"%string = Some (Table dipole_series)
  /\ getSystemDipoleMoment fs "system_dipole_moment.dat"
     = Ok (3.5 * (1 / 0.2081943))%float.
Proof.
  intros fs.
  assert (Hfile : fs !! "system_dipole_moment.dat"%string = Some (Table dipole_series))
    by (vm_compute; reflexivity).
  split; [exact Hfile|].
  refine (proj2 (getSystemDipoleMoment_table fs "system_dipole_moment.dat" dipole_series
                   Hfile) [200; 12; 3.5]%float 3.5%float _ _ eq_refl eq_refl).
  - cbn. lia.
  - repeat constructor.
Defined.

Lemma systemDipoleAlignment_raises_iff_unequal_witness :
  loadtxt along_z "mu_x.dat.gz" 1 = Ok (Array1 [0; 0; 0]%float)
  /\ loadtxt along_z "mu_y.dat.gz" 1 = Ok (Array1 [0; 0; 0]%float)
  /\ loadtxt along_z "mu_z.dat.gz" 1 = Ok (Array1 [1; 1; 1]%float)
  /\ is_ok (systemDipoleAlignment along_z) = true.
Proof.
  assert (Hx : loadtxt along_z "mu_x.dat.gz" 1 = Ok (Array1 [0; 0; 0]%float))
    by (vm_compute; reflexivity).
  assert (Hy : loadtxt along_z "mu_y.dat.gz" 1 = Ok (Array1 [0; 0; 0]%float))
    by (vm_compute; reflexivity).
  assert (Hz : loadtxt along_z "mu_z.dat.gz" 1 = Ok (Array1 [1; 1; 1]%float))
    by (vm_compute; reflexivity).
  split; [exact Hx|]. split; [exact Hy|]. split; [exact Hz|].
  exact (systemDipoleAlignment_raises_iff_unequal along_z _ _ _ Hx Hy Hz).
Defined.

(** Component files of different lengths: [np.vstack] raises. *)
Example systemDipoleAlignment_unequal_columns :
  systemDipoleAlignment
    ({[ "mu_x.dat.gz"%string := Table [ [0; 0]; [100; 0] ]%float;
        "mu_y.dat.gz"%string := Table [ [0; 0]; [100; 0] ]%float;
        "mu_z.dat.gz"%string := Table [ [0; 1] ]%float ]} : filesystem float)
  = Raise (ValueError "all the input array dimensions must match").
Proof. vm_compute. reflexivity. Qed.


(** * Further properties of the alignment, in exact arithmetic *)

Module AlignmentExtras.
Import Exact ExactShapes AlignmentFacts.
Local Open Scope R_scope.

Lemma scaled_row (a : ndarray R) (component : vec R -> R) (samples : list (vec R)) :
  as_row a = map component samples ->
  as_row (array_times a (fdiv lit_1 lit_debye))
    = map (fun v => component v * to_debye) samples.
Proof.
  intros Ha. destruct a as [x|xs]; cbn [as_row array_times] in *.
  - destruct samples as [|v [|w rest]]; try discriminate.
    injection Ha as ->. reflexivity.
  - rewrite Ha, map_map. reflexivity.
Qed.

(** The rows [systemDipoleMomentVector] returns for a series of samples. *)
Lemma systemDipoleMomentVector_rows (fs : filesystem R) (samples : list (vec R))
    mux muy muz :
  loadtxt fs "mu_x.dat.gz" 1 = Ok mux ->
  loadtxt fs "mu_y.dat.gz" 1 = Ok muy ->
  loadtxt fs "mu_z.dat.gz" 1 = Ok muz ->
  as_row mux = map vx samples ->
  as_row muy = map vy samples ->
  as_row muz = map vz samples ->
  systemDipoleMomentVector fs
    = Ok (Rows (map (hat vx) samples) (map (hat vy) samples) (map (hat vz) samples)).
Proof.
  intros Hx Hy Hz Hrx Hry Hrz. unfold systemDipoleMomentVector.
  rewrite Hx, Hy, Hz. cbn [rbind]. unfold vstack.
  rewrite (scaled_row mux vx samples Hrx), (scaled_row muy vy samples Hry),
    (scaled_row muz vz samples Hrz).
  rewrite !length_map, Nat.eqb_refl. cbn [andb rbind].
  unfold unit_dipole_vectors. cbn [row_x row_y row_z].
  now rewrite !unit_rows.
Qed.

(** X13: in exact arithmetic [systemDipoleMomentVector] returns, for a series
    of non-zero samples, one column per sample, and every column is a unit
    vector: the squares of its three entries add up to 1. *)
Theorem systemDipoleMomentVector_unit_columns (fs : filesystem R)
    (samples : list (vec R)) mux muy muz :
  loadtxt fs "mu_x.dat.gz" 1 = Ok mux ->
  loadtxt fs "mu_y.dat.gz" 1 = Ok muy ->
  loadtxt fs "mu_z.dat.gz" 1 = Ok muz ->
  as_row mux = map vx samples ->
  as_row muy = map vy samples ->
  as_row muz = map vz samples ->
  Forall (fun v => v <> V3 0 0 0) samples ->
  exists mu_hat,
    systemDipoleMomentVector fs = Ok mu_hat
    /\ length (row_x mu_hat) = length samples
    /\ length (row_y mu_hat) = length samples
    /\ length (row_z mu_hat) = length samples
    /\ forall i x y z,
         nth_error (row_x mu_hat) i = Some x ->
         nth_error (row_y mu_hat) i = Some y ->
         nth_error (row_z mu_hat) i = Some z ->
         x * x + y * y + z * z = 1.
Proof.
  intros Hx Hy Hz Hrx Hry Hrz Hnz.
  rewrite (systemDipoleMomentVector_rows fs samples mux muy muz Hx Hy Hz Hrx Hry Hrz).
  eexists. split; [reflexivity|]. cbn [row_x row_y row_z].
  rewrite !length_map. repeat (split; [reflexivity|]).
  intros i x y z. rewrite !nth_error_map.
  destruct (nth_error samples i) as [v|] eqn:Hv; cbn; [|discriminate].
  intros [= <-] [= <-] [= <-]. apply hat_squares_sum.
  rewrite List.Forall_forall in Hnz. apply Hnz. eapply nth_error_In. exact Hv.
Qed.

Lemma systemDipoleMomentVector_unit_columns_witness :
  let samples := [V3 0 0 1; V3 0 0 1] in
  loadtxt along_z_exact "mu_x.dat.gz" 1 = Ok (Array1 [0; 0])
  /\ loadtxt along_z_exact "mu_y.dat.gz" 1 = Ok (Array1 [0; 0])
  /\ loadtxt along_z_exact "mu_z.dat.gz" 1 = Ok (Array1 [1; 1])
  /\ Forall (fun v : vec R => v <> V3 0 0 0) samples
  /\ exists mu_hat,
       systemDipoleMomentVector along_z_exact = Ok mu_hat
       /\ length (row_x mu_hat) = length samples
       /\ length (row_y mu_hat) = length samples
       /\ length (row_z mu_hat) = length samples
       /\ forall i x y z,
            nth_error (row_x mu_hat) i = Some x ->
            nth_error (row_y mu_hat) i = Some y ->
            nth_error (row_z mu_hat) i = Some z ->
            x * x + y * y + z * z = 1.
Proof.
  intros samples.
  assert (Hnz : Forall (fun v : vec R => v <> V3 0 0 0) samples).
  { repeat constructor; intros Heq; apply (f_equal vz) in Heq; cbn in Heq; lra. }
  repeat (split; [first [reflexivity | assumption]|]).
  exact (systemDipoleMomentVector_unit_columns along_z_exact samples
           (Array1 [0; 0]) (Array1 [0; 0]) (Array1 [1; 1])
           eq_refl eq_refl eq_refl eq_refl eq_refl eq_refl Hnz).
Defined.

Lemma total_nonneg (f : vec R -> R) (samples : list (vec R)) :
  (forall v, 0 <= f v) -> 0 <= total f samples.
Proof.
  intros Hf. unfold total. induction samples as [|v rest IH]; cbn; [lra|].
  specialize (Hf v). lra.
Qed.

(** X14: in exact arithmetic each entry of the alignment of a non-empty
    series of non-zero samples lies between 0 and 1. *)
Theorem systemDipoleAlignment_entries_bounded (fs : filesystem R)
    (samples : list (vec R)) mux muy muz :
  loadtxt fs "mu_x.dat.gz" 1 = Ok mux ->
  loadtxt fs "mu_y.dat.gz" 1 = Ok muy ->
  loadtxt fs "mu_z.dat.gz" 1 = Ok muz ->
  as_row mux = map vx samples ->
  as_row muy = map vy samples ->
  as_row muz = map vz samples ->
  samples <> [] ->
  Forall (fun v => v <> V3 0 0 0) samples ->
  exists a,
    systemDipoleAlignment fs = Ok a
    /\ 0 <= vx a <= 1 /\ 0 <= vy a <= 1 /\ 0 <= vz a <= 1.
Proof.
  intros Hx Hy Hz Hrx Hry Hrz Hne Hnz. unfold systemDipoleAlignment.
  rewrite (systemDipoleMomentVector_rows fs samples mux muy muz Hx Hy Hz Hrx Hry Hrz).
  cbn [rbind row_x row_y row_z]. eexists. split; [reflexivity|]. cbn [vx vy vz].
  rewrite !mean_squares_total.
  assert (Hn : 0 < INR (length samples)).
  { destruct samples; [congruence|]. rewrite length_cons, S_INR.
    pose proof (pos_INR (length samples)). lra. }
  pose proof (total_unit_squares samples Hnz) as Hsum.
  pose proof (total_nonneg (fun v => hat vx v * hat vx v) samples
                (fun v => Rle_0_sqr (hat vx v))) as H0x.
  pose proof (total_nonneg (fun v => hat vy v * hat vy v) samples
                (fun v => Rle_0_sqr (hat vy v))) as H0y.
  pose proof (total_nonneg (fun v => hat vz v * hat vz v) samples
                (fun v => Rle_0_sqr (hat vz v))) as H0z.
  set (tx := total (fun v => hat vx v * hat vx v) samples) in *.
  set (ty := total (fun v => hat vy v * hat vy v) samples) in *.
  set (tz := total (fun v => hat vz v * hat vz v) samples) in *.
  set (n := INR (length samples)) in *.
  assert (Hdiv : forall t, 0 <= t -> t <= n -> 0 <= t / n <= 1).
  { intros t Ht0 Htn. split.
    - apply Rmult_le_pos; [exact Ht0|]. left. now apply Rinv_0_lt_compat.
    - apply Rmult_le_reg_r with n; [exact Hn|].
      replace (t / n * n) with t by (field; lra). lra. }
  repeat split; apply Hdiv; lra.
Qed.

Lemma systemDipoleAlignment_entries_bounded_witness :
  let samples := [V3 0 0 1; V3 0 0 1] in
  loadtxt along_z_exact "mu_x.dat.gz" 1 = Ok (Array1 [0; 0])
  /\ loadtxt along_z_exact "mu_y.dat.gz" 1 = Ok (Array1 [0; 0])
  /\ loadtxt along_z_exact "mu_z.dat.gz" 1 = Ok (Array1 [1; 1])
  /\ samples <> []
  /\ Forall (fun v : vec R => v <> V3 0 0 0) samples
  /\ exists a,
       systemDipoleAlignment along_z_exact = Ok a
       /\ 0 <= vx a <= 1 /\ 0 <= vy a <= 1 /\ 0 <= vz a <= 1.
Proof.
  intros samples.
  assert (Hnz : Forall (fun v : vec R => v <> V3 0 0 0) samples).
  { repeat constructor; intros Heq; apply (f_equal vz) in Heq; cbn in Heq; lra. }
  assert (Hne : samples <> []) by discriminate.
  repeat (split; [first [reflexivity | assumption]|]).
  exact (systemDipoleAlignment_entries_bounded along_z_exact samples
           (Array1 [0; 0]) (Array1 [0; 0]) (Array1 [1; 1])
           eq_refl eq_refl eq_refl eq_refl eq_refl eq_refl Hne Hnz).
Defined.

Lemma scaled_length_smul k (v : vec R) :
  0 < k -> scaled_length (smul k v) = k * scaled_length v.
Proof.
  intros Hk. unfold scaled_length. cbn [vx vy vz smul fmul arith].
  replace (k * vx v * to_debye * (k * vx v * to_debye)
           + k * vy v * to_debye * (k * vy v * to_debye)
           + k * vz v * to_debye * (k * vz v * to_debye))
    with ((k * k) * (vx v * to_debye * (vx v * to_debye)
                     + vy v * to_debye * (vy v * to_debye)
                     + vz v * to_debye * (vz v * to_debye))) by ring.
  rewrite sqrt_mult by nra. rewrite sqrt_square by lra. reflexivity.
Qed.

Lemma hat_smul k (v : vec R) :
  0 < k -> v <> V3 0 0 0 ->
  hat vx (smul k v) = hat vx v /\ hat vy (smul k v) = hat vy v
  /\ hat vz (smul k v) = hat vz v.
Proof.
  intros Hk Hv. pose proof (scaled_length_pos v Hv) as Hs.
  unfold hat. rewrite (scaled_length_smul k v Hk). cbn [vx vy vz smul fmul arith].
  repeat split; field; lra.
Qed.

(** X15: in exact arithmetic the alignment does not depend on the unit of
    the dipole components: samples that are all multiplied by the same
    positive factor give the same result. *)
Theorem systemDipoleAlignment_scale_invariant (fs fs' : filesystem R)
    (samples : list (vec R)) (k : R) mux muy muz mux' muy' muz' :
  loadtxt fs "mu_x.dat.gz" 1 = Ok mux ->
  loadtxt fs "mu_y.dat.gz" 1 = Ok muy ->
  loadtxt fs "mu_z.dat.gz" 1 = Ok muz ->
  as_row mux = map vx samples ->
  as_row muy = map vy samples ->
  as_row muz = map vz samples ->
  loadtxt fs' "mu_x.dat.gz" 1 = Ok mux' ->
  loadtxt fs' "mu_y.dat.gz" 1 = Ok muy' ->
  loadtxt fs' "mu_z.dat.gz" 1 = Ok muz' ->
  as_row mux' = map vx (map (smul k) samples) ->
  as_row muy' = map vy (map (smul k) samples) ->
  as_row muz' = map vz (map (smul k) samples) ->
  0 < k ->
  Forall (fun v => v <> V3 0 0 0) samples ->
  systemDipoleAlignment fs' = systemDipoleAlignment fs.
Proof.
  intros Hx Hy Hz Hrx Hry Hrz Hx' Hy' Hz' Hrx' Hry' Hrz' Hk Hnz.
  unfold systemDipoleAlignment.
  rewrite (systemDipoleMomentVector_rows fs samples mux muy muz Hx Hy Hz Hrx Hry Hrz).
  rewrite (systemDipoleMomentVector_rows fs' (map (smul k) samples) mux' muy' muz'
             Hx' Hy' Hz' Hrx' Hry' Hrz').
  assert (Hrows : map (hat vx) (map (smul k) samples) = map (hat vx) samples
                  /\ map (hat vy) (map (smul k) samples) = map (hat vy) samples
                  /\ map (hat vz) (map (smul k) samples) = map (hat vz) samples).
  { rewrite !map_map. rewrite List.Forall_forall in Hnz.
    repeat split; apply map_ext_in; intros v Hv;
      destruct (hat_smul k v Hk (Hnz v Hv)) as (Hhx & Hhy & Hhz); assumption. }
  destruct Hrows as (-> & -> & ->). reflexivity.
Qed.

Lemma systemDipoleAlignment_scale_invariant_witness :
  let samples := [V3 0 0 1; V3 0 0 1] in
  let doubled : filesystem R :=
    {[ "mu_x.dat.gz"%string := Table [ [0; 0]; [100; 0] ];
       "mu_y.dat.gz"%string := Table [ [0; 0]; [100; 0] ];
       "mu_z.dat.gz"%string := Table [ [0; 2]; [100; 2] ] ]} in
  loadtxt along_z_exact "mu_z.dat.gz" 1 = Ok (Array1 [1; 1])
  /\ loadtxt doubled "mu_z.dat.gz" 1 = Ok (Array1 [2; 2])
  /\ as_row (Array1 [2; 2]) = map vz (map (smul 2) samples)
  /\ 0 < 2
  /\ Forall (fun v : vec R => v <> V3 0 0 0) samples
  /\ systemDipoleAlignment doubled = systemDipoleAlignment along_z_exact.
Proof.
  intros samples doubled.
  assert (Hnz : Forall (fun v : vec R => v <> V3 0 0 0) samples).
  { repeat constructor; intros Heq; apply (f_equal vz) in Heq; cbn in Heq; lra. }
  assert (Hk : 0 < 2) by lra.
  assert (Hrx : as_row (Array1 [0; 0]) = map vx (map (smul 2) samples)).
  { cbn [as_row map samples vx smul fmul arith]. repeat f_equal; lra. }
  assert (Hry : as_row (Array1 [0; 0]) = map vy (map (smul 2) samples)).
  { cbn [as_row map samples vy smul fmul arith]. repeat f_equal; lra. }
  assert (Hrz : as_row (Array1 [2; 2]) = map vz (map (smul 2) samples)).
  { cbn [as_row map samples vz smul fmul arith]. repeat f_equal; lra. }
  split; [reflexivity|]. split; [reflexivity|]. split; [exact Hrz|].
  split; [exact Hk|]. split; [exact Hnz|].
  exact (systemDipoleAlignment_scale_invariant along_z_exact doubled samples 2
           (Array1 [0; 0]) (Array1 [0; 0]) (Array1 [1; 1])
           (Array1 [0; 0]) (Array1 [0; 0]) (Array1 [2; 2])
           eq_refl eq_refl eq_refl eq_refl eq_refl eq_refl
           eq_refl eq_refl eq_refl Hrx Hry Hrz Hk Hnz).
Defined.

End AlignmentExtras.


(** * A zero sample in binary64 *)

Lemma is_zero_zero_or_nan (x : float) :
  PrimFloat.is_zero x = true -> sf_zero_or_nan (Prim2SF x) = true.
Proof.
  unfold PrimFloat.is_zero. rewrite FloatAxioms.eqb_spec.
  change (Prim2SF zero) with (S754_zero false).
  destruct (Prim2SF x) as [[]|[]| |[] m e]; cbn; congruence.
Qed.

Lemma mul_zero_or_nan_l (x t : float) :
  sf_zero_or_nan (Prim2SF x) = true -> sf_zero_or_nan (Prim2SF (x * t)) = true.
Proof.
  rewrite mul_spec. unfold SF64mul.
  destruct (Prim2SF x), (Prim2SF t); cbn; congruence.
Qed.

Lemma div_zero_or_nan_nan (a b : float) :
  sf_zero_or_nan (Prim2SF a) = true -> sf_zero_or_nan (Prim2SF b) = true ->
  Prim2SF (a / b) = S754_nan.
Proof.
  rewrite div_spec. unfold SF64div.
  destruct (Prim2SF a), (Prim2SF b); cbn; congruence.
Qed.

Lemma mul_nan (v w : float) : Prim2SF v = S754_nan -> Prim2SF (v * w) = S754_nan.
Proof. intros Hv. rewrite mul_spec, Hv. reflexivity. Qed.

Lemma add_nan_l (v w : float) : Prim2SF v = S754_nan -> Prim2SF (v + w) = S754_nan.
Proof. intros Hv. rewrite add_spec, Hv. reflexivity. Qed.

Lemma add_nan_r (v w : float) : Prim2SF w = S754_nan -> Prim2SF (v + w) = S754_nan.
Proof.
  intros Hw. rewrite add_spec, Hw. unfold SF64add. now destruct (Prim2SF v).
Qed.

Lemma div_nan_l (v w : float) : Prim2SF v = S754_nan -> Prim2SF (v / w) = S754_nan.
Proof. intros Hv. rewrite div_spec, Hv. reflexivity. Qed.

Lemma nan_is_nan (v : float) : Prim2SF v = S754_nan -> PrimFloat.is_nan v = true.
Proof.
  intros Hv. unfold PrimFloat.is_nan. now rewrite FloatAxioms.eqb_spec, Hv.
Qed.

Lemma fold_add_nan (l : list float) : forall acc,
  Prim2SF acc = S754_nan -> Prim2SF (fold_left PrimFloat.add l acc) = S754_nan.
Proof.
  induction l as [|x rest IH]; intros acc Hacc; cbn; [exact Hacc|].
  apply IH. now apply add_nan_l.
Qed.

Lemma row_sum_nan (l : list float) i v :
  nth_error l i = Some v -> Prim2SF v = S754_nan -> Prim2SF (row_sum l) = S754_nan.
Proof.
  intros Hi Hv. destruct l as [|x rest]; [destruct i; discriminate|].
  cbn [row_sum fadd arith]. revert x i Hi.
  induction rest as [|y rest IH]; intros x i Hi.
  - destruct i as [|[|i]]; cbn in Hi; try discriminate. now injection Hi as ->.
  - cbn [fold_left]. destruct i as [|i].
    + cbn in Hi. injection Hi as ->. apply fold_add_nan. now apply add_nan_l.
    + destruct i as [|i].
      * cbn in Hi. injection Hi as ->. apply fold_add_nan. now apply add_nan_r.
      * apply (IH (x + y)%float (S i)). exact Hi.
Qed.

Lemma mean_squares_nan (l : list float) i v :
  nth_error l i = Some v -> Prim2SF v = S754_nan ->
  PrimFloat.is_nan (mean (squares l)) = true.
Proof.
  intros Hi Hv. apply nan_is_nan. unfold mean. cbn [fdiv arith]. apply div_nan_l.
  apply (row_sum_nan _ i (v * v)%float).
  - unfold squares. rewrite nth_error_map, Hi. reflexivity.
  - now apply mul_nan.
Qed.

Lemma zip3_with_nth (f : float -> float -> float -> float) i : forall xs ys zs a b c,
  nth_error xs i = Some a -> nth_error ys i = Some b -> nth_error zs i = Some c ->
  nth_error (zip3_with f xs ys zs) i = Some (f a b c).
Proof.
  induction i as [|i IH]; intros [|x xs] [|y ys] [|z zs] a b c; cbn; try discriminate.
  - now intros [= ->] [= ->] [= ->].
  - apply IH.
Qed.

Lemma zip2_with_nth (f : float -> float -> float) i : forall xs ys a b,
  nth_error xs i = Some a -> nth_error ys i = Some b ->
  nth_error (zip2_with f xs ys) i = Some (f a b).
Proof.
  induction i as [|i IH]; intros [|x xs] [|y ys] a b; cbn; try discriminate.
  - now intros [= ->] [= ->].
  - apply IH.
Qed.

Lemma array_times_nth (a : ndarray float) (c : float) i x :
  nth_error (as_row a) i = Some x ->
  nth_error (as_row (array_times a c)) i = Some (x * c)%float.
Proof.
  destruct a as [y|ys]; cbn [as_row array_times].
  - destruct i as [|[|i]]; cbn; try discriminate. now intros [= ->].
  - intros Hx. rewrite nth_error_map, Hx. reflexivity.
Qed.

(** X16: in binary64 a sample whose three components are zero is not
    refused: with equally long columns [systemDipoleAlignment] returns, and
    all three entries of the result are NaN (the sample is divided by its
    length 0, and the NaN spreads through the mean). *)
Theorem systemDipoleAlignment_zero_sample (fs : filesystem float) mux muy muz i x y z :
  loadtxt fs "mu_x.dat.gz" 1 = Ok mux ->
  loadtxt fs "mu_y.dat.gz" 1 = Ok muy ->
  loadtxt fs "mu_z.dat.gz" 1 = Ok muz ->
  length (as_row mux) = length (as_row muy) ->
  length (as_row muy) = length (as_row muz) ->
  nth_error (as_row mux) i = Some x ->
  nth_error (as_row muy) i = Some y ->
  nth_error (as_row muz) i = Some z ->
  is_zero_sample x y z = true ->
  exists a,
    systemDipoleAlignment fs = Ok a
    /\ PrimFloat.is_nan (vx a) = true
    /\ PrimFloat.is_nan (vy a) = true
    /\ PrimFloat.is_nan (vz a) = true.
Proof.
  intros Hx Hy Hz Hxy Hyz Hix Hiy Hiz Hzero.
  unfold is_zero_sample in Hzero.
  apply andb_true_iff in Hzero as [Hzero Hzz].
  apply andb_true_iff in Hzero as [Hzx Hzy].
  apply is_zero_zero_or_nan in Hzx, Hzy, Hzz.
  unfold systemDipoleAlignment, systemDipoleMomentVector.
  rewrite Hx, Hy, Hz. cbn [rbind]. unfold vstack.
  assert (Hlen : forall a c, length (as_row (array_times a c)) = length (as_row a)).
  { intros [w|ws] c; cbn; [reflexivity|apply length_map]. }
  rewrite !Hlen, Hxy, Hyz, !Nat.eqb_refl. cbn [andb rbind].
  set (t := (lit_1 / lit_debye)%A).
  pose proof (array_times_nth mux t i x Hix) as Hnx.
  pose proof (array_times_nth muy t i y Hiy) as Hny.
  pose proof (array_times_nth muz t i z Hiz) as Hnz.
  set (X := as_row (array_times mux t)) in *.
  set (Y := as_row (array_times muy t)) in *.
  set (Z := as_row (array_times muz t)) in *.
  unfold unit_dipole_vectors. cbn [row_x row_y row_z].
  set (f := fun a b c : float => ((a * a + b * b) + c * c)%A).
  pose proof (zip3_with_nth f i X Y Z _ _ _ Hnx Hny Hnz) as Hlen3.
  assert (Hl : nth_error (map fsqrt (zip3_with f X Y Z)) i
               = Some (PrimFloat.sqrt (f (x * t) (y * t) (z * t))%float)).
  { rewrite nth_error_map, Hlen3. reflexivity. }
  assert (Hzl : sf_zero_or_nan
                  (Prim2SF (PrimFloat.sqrt (f (x * t) (y * t) (z * t))%float)) = true).
  { pose proof (mul_zero_or_nan_l x t Hzx) as Hxt.
    pose proof (mul_zero_or_nan_l y t Hzy) as Hyt.
    pose proof (mul_zero_or_nan_l z t Hzz) as Hzt.
    apply sqrt_zero_or_nan. unfold f. cbn [fadd fmul arith].
    repeat first [assumption | apply add_zero_or_nan | apply mul_zero_or_nan]. }
  eexists. split; [reflexivity|]. cbn [vx vy vz].
  split; [|split].
  - eapply mean_squares_nan.
    + apply (zip2_with_nth fdiv i X _ _ _ Hnx Hl).
    + apply div_zero_or_nan_nan; [now apply mul_zero_or_nan_l|exact Hzl].
  - eapply mean_squares_nan.
    + apply (zip2_with_nth fdiv i Y _ _ _ Hny Hl).
    + apply div_zero_or_nan_nan; [now apply mul_zero_or_nan_l|exact Hzl].
  - eapply mean_squares_nan.
    + apply (zip2_with_nth fdiv i Z _ _ _ Hnz Hl).
    + apply div_zero_or_nan_nan; [now apply mul_zero_or_nan_l|exact Hzl].
Qed.

Lemma systemDipoleAlignment_zero_sample_witness :
  let fs : filesystem float :=
    {[ "mu_x.dat.gz"%string := Table [ [0; 1]; [100; 0] ]%float;
       "mu_y.dat.gz"%string := Table [ [0; 0]; [100; 0] ]%float;
       "mu_z.dat.gz"%string := Table [ [0; 1]; [100; 0] ]%float ]} in
  loadtxt fs "mu_x.dat.gz" 1 = Ok (Array1 [1; 0]%float)
  /\ loadtxt fs "mu_y.dat.gz" 1 = Ok (Array1 [0; 0]%float)
  /\ loadtxt fs "mu_z.dat.gz" 1 = Ok (Array1 [1; 0]%float)
  /\ is_zero_sample 0 0 0 = true
  /\ exists a,
       systemDipoleAlignment fs = Ok a
       /\ PrimFloat.is_nan (vx a) = true
       /\ PrimFloat.is_nan (vy a) = true
       /\ PrimFloat.is_nan (vz a) = true.
Proof.
  intros fs.
  assert (Hx : loadtxt fs "mu_x.dat.gz" 1 = Ok (Array1 [1; 0]%float))
    by (vm_compute; reflexivity).
  assert (Hy : loadtxt fs "mu_y.dat.gz" 1 = Ok (Array1 [0; 0]%float))
    by (vm_compute; reflexivity).
  assert (Hz : loadtxt fs "mu_z.dat.gz" 1 = Ok (Array1 [1; 0]%float))
    by (vm_compute; reflexivity).
  assert (Hzero : is_zero_sample 0 0 0 = true) by (vm_compute; reflexivity).
  split; [exact Hx|]. split; [exact Hy|]. split; [exact Hz|]. split; [exact Hzero|].
  exact (systemDipoleAlignment_zero_sample fs _ _ _ 1%nat 0%float 0%float 0%float
           Hx Hy Hz eq_refl eq_refl eq_refl eq_refl eq_refl Hzero).
Defined.


(** * The text of a PQR file *)

Section PqrText.
Import Stdlib.Strings.Ascii.
Local Open Scope Z_scope.

Lemma spaces_length n : length (spaces n) = n.
Proof. apply repeat_length. Qed.

Lemma align_right_length width t :
  length (align_right width t) = Nat.max width (length t).
Proof. unfold align_right. rewrite length_app, spaces_length. lia. Qed.

Lemma align_left_length width t :
  length (align_left width t) = Nat.max width (length t).
Proof. unfold align_left. rewrite length_app, spaces_length. lia. Qed.

Lemma align_centre_length width t :
  length (align_centre width t) = Nat.max width (length t).
Proof.
  unfold align_centre. cbn zeta. rewrite !length_app, !spaces_length.
  pose proof (Nat.le_div2_diag_l (width - length t)).
  lia.
Qed.

(** *** Decimal digits *)

Lemma decimal_digits_acc fuel : forall n acc,
  (length acc <= length (decimal_digits fuel n acc))%nat.
Proof.
  induction fuel as [|fuel IH]; intros n acc; cbn [decimal_digits]; [lia|].
  destruct (n / 10 =? 0)%Z; [cbn; lia|].
  specialize (IH (n / 10)%Z (digit (n mod 10) :: acc)). cbn in IH. lia.
Qed.

(** A number below [10^(k+1)] has at most [k + 1] digits. *)
Lemma decimal_digits_upper fuel : forall n acc k,
  (0 <= n < 10 ^ Z.of_nat (S k))%Z ->
  (length (decimal_digits fuel n acc) <= S k + length acc)%nat.
Proof.
  induction fuel as [|fuel IH]; intros n acc k Hn; cbn [decimal_digits]; [lia|].
  destruct (Z.eqb_spec (n / 10) 0) as [Hq|Hq]; [cbn; lia|].
  destruct k as [|k].
  - exfalso. apply Hq. apply Z.div_small. change (10 ^ Z.of_nat 1)%Z with 10%Z in Hn. lia.
  - specialize (IH (n / 10)%Z (digit (n mod 10) :: acc) k).
    cbn [length] in IH. etransitivity; [apply IH|lia].
    split; [apply Z.div_pos; lia|].
    apply Z.div_lt_upper_bound; [lia|].
    replace (Z.of_nat (S (S k))) with (Z.succ (Z.of_nat (S k))) in Hn by lia.
    rewrite Z.pow_succ_r in Hn by lia. lia.
Qed.

(** A number from [10^k] on has at least [k + 1] digits, given the fuel. *)
Lemma decimal_digits_lower fuel : forall n acc k,
  (10 ^ Z.of_nat k <= n)%Z -> (n < 2 ^ Z.of_nat fuel)%Z ->
  (S k + length acc <= length (decimal_digits fuel n acc))%nat.
Proof.
  induction fuel as [|fuel IH]; intros n acc k Hk Hfuel; cbn [decimal_digits].
  - exfalso. pose proof (Z.pow_pos_nonneg 10 (Z.of_nat k)). cbn in Hfuel. lia.
  - assert (Hpos : (0 < 10 ^ Z.of_nat k)%Z) by (apply Z.pow_pos_nonneg; lia).
    destruct (Z.eqb_spec (n / 10) 0) as [Hq|Hq].
    + assert (Hsmall : (n < 10)%Z).
      { destruct (Z.lt_ge_cases n 10) as [Hlt|Hge]; [exact Hlt|].
        pose proof (Z.div_le_mono 10 n 10 ltac:(lia) Hge) as Hd.
        change (10 / 10)%Z with 1%Z in Hd. lia. }
      destruct k as [|k]; [cbn; lia|].
      exfalso. replace (Z.of_nat (S k)) with (Z.succ (Z.of_nat k)) in Hk by lia.
      rewrite Z.pow_succ_r in Hk by lia.
      pose proof (Z.pow_pos_nonneg 10 (Z.of_nat k)). lia.
    + assert (Hq0 : (0 <= n / 10)%Z) by (apply Z.div_pos; lia).
      assert (Hq2 : (n / 10 < 2 ^ Z.of_nat fuel)%Z).
      { apply Z.div_lt_upper_bound; [lia|].
        replace (Z.of_nat (S fuel)) with (Z.succ (Z.of_nat fuel)) in Hfuel by lia.
        rewrite Z.pow_succ_r in Hfuel by lia.
        pose proof (Z.pow_pos_nonneg 2 (Z.of_nat fuel)). lia. }
      destruct k as [|k].
      * pose proof (decimal_digits_acc fuel (n / 10)%Z (digit (n mod 10) :: acc)) as Hacc.
        cbn [length] in Hacc. lia.
      * specialize (IH (n / 10)%Z (digit (n mod 10) :: acc) k).
        cbn [length] in IH. etransitivity; [|apply IH]; [lia| |exact Hq2].
        apply Z.div_le_lower_bound; [lia|].
        replace (Z.of_nat (S k)) with (Z.succ (Z.of_nat k)) in Hk by lia.
        rewrite Z.pow_succ_r in Hk by lia. lia.
Qed.

Lemma decimal_text_fuel n :
  (0 <= n)%Z -> (n < 2 ^ Z.of_nat (S (Z.to_nat (Z.log2 n))))%Z.
Proof.
  intros Hn. destruct (Z.eq_dec n 0) as [->|Hnz]; [reflexivity|].
  pose proof (Z.log2_nonneg n).
  replace (Z.of_nat (S (Z.to_nat (Z.log2 n)))) with (Z.succ (Z.log2 n)) by lia.
  apply Z.log2_spec. lia.
Qed.

(** [n >= 0] has at most [k] digits exactly when it is below [10^k]. *)
Lemma decimal_text_length n k :
  (0 <= n)%Z -> (1 <= k)%nat ->
  (length (decimal_text n) <= k)%nat <-> (n < 10 ^ Z.of_nat k)%Z.
Proof.
  intros Hn Hk. unfold decimal_text. split.
  - intros Hlen. destruct (Z.lt_ge_cases n (10 ^ Z.of_nat k)) as [Hlt|Hge]; [exact Hlt|].
    pose proof (decimal_digits_lower _ n [] k Hge (decimal_text_fuel n Hn)) as Hlow.
    cbn [length] in Hlow. lia.
  - intros Hlt. destruct k as [|k]; [lia|].
    pose proof (decimal_digits_upper (S (Z.to_nat (Z.log2 n))) n [] k (conj Hn Hlt)) as Hup.
    cbn [length] in Hup. lia.
Qed.

Lemma decimal_text_nonempty n : (1 <= length (decimal_text n))%nat.
Proof.
  unfold decimal_text. cbn [decimal_digits].
  destruct (n / 10 =? 0)%Z; [cbn; lia|].
  pose proof (decimal_digits_acc (Z.to_nat (Z.log2 n)) (n / 10)%Z [digit (n mod 10)]) as H.
  cbn [length] in H. lia.
Qed.

(** [{:Wd}] keeps to its [W] columns exactly for the numbers from
    [-(10^(W-1) - 1)] to [10^W - 1]. *)
Lemma format_d_length width n :
  (2 <= width)%nat ->
  length (format_d width n) = width
  <-> (- 10 ^ Z.of_nat (width - 1) < n < 10 ^ Z.of_nat width)%Z.
Proof.
  intros Hw. unfold format_d. rewrite align_right_length.
  pose proof (Z.pow_pos_nonneg 10 (Z.of_nat width)).
  pose proof (Z.pow_pos_nonneg 10 (Z.of_nat (width - 1))).
  destruct (Z.ltb_spec n 0) as [Hneg|Hpos].
  - cbn [length].
    pose proof (decimal_text_length (- n) (width - 1) ltac:(lia) ltac:(lia)) as Hd.
    split; intros Hl.
    + split; [|lia]. assert (- n < 10 ^ Z.of_nat (width - 1))%Z; [|lia].
      apply Hd. lia.
    + assert (length (decimal_text (- n)) <= width - 1)%nat; [|lia].
      apply Hd. lia.
  - pose proof (decimal_text_length n width Hpos ltac:(lia)) as Hd.
    split; intros Hl.
    + split; [lia|]. apply Hd. lia.
    + assert (length (decimal_text n) <= width)%nat; [|lia]. apply Hd. lia.
Qed.

Lemma format_d_at_least width n : (width <= length (format_d width n))%nat.
Proof. unfold format_d. rewrite align_right_length. lia. Qed.

(** *** Fixed-point numbers *)

Lemma fixed_point_length prec n :
  length (fixed_point prec n) = S (Nat.max (S prec) (length (decimal_text n))).
Proof.
  unfold fixed_point. cbn zeta.
  set (ds := repeat "0"%char (S prec - length (decimal_text n)) ++ decimal_text n).
  assert (Hds : length ds = Nat.max (S prec) (length (decimal_text n))).
  { unfold ds. rewrite length_app, repeat_length. lia. }
  rewrite length_app. cbn [length]. rewrite length_firstn, length_skipn. lia.
Qed.

(** Rounding to nearest, ties to even, stays at or below an odd [N] exactly
    below [N + 1/2]. *)
Lemma round_half_even_le num den N :
  (0 < den)%Z -> Z.odd N = true ->
  (round_half_even num den <= N)%Z <-> (2 * num < (2 * N + 1) * den)%Z.
Proof.
  intros Hden Hodd. unfold round_half_even. cbn zeta.
  pose proof (Z.div_mod num den ltac:(lia)) as Hdm.
  pose proof (Z.mod_pos_bound num den Hden) as Hr.
  set (q := (num / den)%Z) in *. set (r := (num mod den)%Z) in *.
  destruct (Z.compare_spec (2 * r) den) as [Heq|Hlt|Hgt].
  - assert (H2 : (2 * num = (2 * q + 1) * den)%Z) by nia.
    assert (Hiff : (2 * num < (2 * N + 1) * den)%Z <-> (q < N)%Z).
    { rewrite H2. split; intros Hc; nia. }
    rewrite Hiff. destruct (Z.even q) eqn:Heven; [|lia].
    split; [|lia]. intros Hle. destruct (Z.eq_dec q N) as [->|]; [|lia].
    rewrite <- Z.negb_odd, Hodd in Heven. discriminate.
  - split; intros Hc; nia.
  - split; intros Hc; nia.
Qed.

Lemma round_half_even_nonneg num den :
  (0 <= num)%Z -> (0 < den)%Z -> (0 <= round_half_even num den)%Z.
Proof.
  intros Hnum Hden. unfold round_half_even. cbn zeta.
  pose proof (Z.div_pos num den Hnum Hden).
  destruct (2 * (num mod den) ?= den)%Z; [destruct (Z.even _)| |]; lia.
Qed.

(** *** The exact value of a binary64 number *)

Lemma pos_pow_1_l (p : positive) : (1 ^ p)%positive = 1%positive.
Proof.
  apply Pos2Z.inj. rewrite Pos2Z.inj_pow. apply Z.pow_1_l. lia.
Qed.

(** [m * 2^e] as one fraction of integers. *)
Lemma Q_of_float_finite x s m e :
  Prim2SF x = S754_finite s m e ->
  (Q_of_float x
   == ((if s then Zneg m else Zpos m) * 2 ^ Z.max e 0) # Z.to_pos (2 ^ Z.max (- e) 0))%Q.
Proof.
  intros Hx. unfold Q_of_float. rewrite Hx.
  set (sm := if s then Zneg m else Zpos m).
  destruct e as [|p|p]; cbn [Qpower].
  - change (2 ^ Z.max 0 0) with 1. change (2 ^ Z.max (- 0) 0) with 1.
    unfold Qeq. cbn [Qnum Qden Qmult inject_Z Z.to_pos]. lia.
  - change (Z.max (Z.pos p) 0) with (Z.pos p).
    change (2 ^ Z.max (- Z.pos p) 0) with 1.
    rewrite Qpower.Qpower_decomp_positive, pos_pow_1_l.
    unfold Qeq. cbn [Qnum Qden Qmult inject_Z Z.to_pos]. lia.
  - change (2 ^ Z.max (Z.neg p) 0) with 1.
    change (Z.max (- Z.neg p) 0) with (Z.pos p).
    rewrite Qpower.Qpower_decomp_positive, pos_pow_1_l.
    change (2 ^ Z.pos p) with (Z.pos 2 ^ Z.pos p). rewrite <- Pos2Z.inj_pow.
    unfold Qeq. cbn [Qnum Qden Qmult Qinv inject_Z Z.to_pos]. lia.
Qed.

Lemma Q_of_float_compare x s m e (b : Z) (d : positive) :
  Prim2SF x = S754_finite s m e ->
  let value := (if s then Zneg m else Zpos m) * 2 ^ Z.max e 0 in
  let den := 2 ^ Z.max (- e) 0 in
  ((Q_of_float x < b # d)%Q <-> value * Zpos d < b * den)
  /\ ((b # d < Q_of_float x)%Q <-> b * den < value * Zpos d).
Proof.
  intros Hx value den.
  assert (Hden : 0 < den) by (apply Z.pow_pos_nonneg; lia).
  split; rewrite (Q_of_float_finite x s m e Hx); fold value; fold den;
    unfold Qlt; cbn [Qnum Qden]; rewrite Z2Pos.id by exact Hden; reflexivity.
Qed.

Lemma pow10_minus_1_odd k : (1 <= k)%nat -> Z.odd (10 ^ Z.of_nat k - 1) = true.
Proof.
  intros Hk. rewrite Z.odd_sub, <- (Z.negb_even (10 ^ _)), Z.even_pow by lia.
  reflexivity.
Qed.

(** A finite number keeps to the [width] columns of [{:W.Pf}] exactly when
    its [P]-decimal rounding has no more digits than the field leaves after
    the sign and the point. *)
Lemma format_f_finite_length width prec x s m e :
  Prim2SF x = S754_finite s m e ->
  (prec + 3 <= width)%nat ->
  let k := (width - 1 - (if s then 1 else 0))%nat in
  length (format_f width prec x) = width
  <-> 2 * (Zpos m * 10 ^ Z.of_nat prec * 2 ^ Z.max e 0)
      < (2 * 10 ^ Z.of_nat k - 1) * 2 ^ Z.max (- e) 0.
Proof.
  intros Hx Hw k. unfold format_f. rewrite Hx. cbn zeta.
  set (num := Zpos m * 10 ^ Z.of_nat prec * 2 ^ Z.max e 0).
  set (den := 2 ^ Z.max (- e) 0).
  assert (Hden : 0 < den) by (apply Z.pow_pos_nonneg; lia).
  assert (Hnum : 0 <= num).
  { unfold num. pose proof (Z.pow_pos_nonneg 10 (Z.of_nat prec)).
    pose proof (Z.pow_pos_nonneg 2 (Z.max e 0)). nia. }
  pose proof (round_half_even_nonneg num den Hnum Hden) as Hn.
  set (n := round_half_even num den) in *.
  rewrite align_right_length, length_app, fixed_point_length.
  assert (Hk : (1 <= k)%nat) by (subst k; destruct s; lia).
  pose proof (decimal_text_length n k Hn Hk) as Hdigits.
  pose proof (round_half_even_le num den (10 ^ Z.of_nat k - 1) Hden
                (pow10_minus_1_odd k Hk)) as Hround.
  fold n in Hround.
  replace (2 * (10 ^ Z.of_nat k - 1) + 1) with (2 * 10 ^ Z.of_nat k - 1) in Hround by ring.
  rewrite <- Hround.
  assert (Hsign : length (sign_text s) = if s then 1%nat else 0%nat) by now destruct s.
  rewrite Hsign. subst k.
  split; intros Hl.
  - assert (n < 10 ^ Z.of_nat (width - 1 - (if s then 1 else 0))); [|lia].
    apply Hdigits. destruct s; lia.
  - assert (length (decimal_text n) <= width - 1 - (if s then 1 else 0))%nat.
    { apply Hdigits. lia. }
    destruct s; lia.
Qed.

(** [{:8.3f}] keeps to its 8 columns exactly for the numbers strictly
    between -999.9995 and 9999.9995 (and for [nan] and the infinities, whose
    [Q_of_float] is 0). *)
Lemma format_f_8_3 x :
  length (format_f 8 3 x) = 8%nat <-> (-999.9995 < Q_of_float x < 9999.9995)%Q.
Proof.
  destruct (Prim2SF x) as [s|s| |s m e] eqn:Hx.
  1-3: split; intros _;
    [unfold Q_of_float; rewrite Hx; split; reflexivity
    |unfold format_f; rewrite Hx; try destruct s; reflexivity].
  rewrite (format_f_finite_length 8 3 x s m e Hx) by lia.
  destruct (Q_of_float_compare x s m e (-9999995) 10000 Hx) as [_ Hlo].
  destruct (Q_of_float_compare x s m e 99999995 10000 Hx) as [Hhi _].
  change (-999.9995)%Q with (-9999995 # 10000)%Q.
  change (9999.9995)%Q with (99999995 # 10000)%Q.
  rewrite Hlo, Hhi.
  change (10 ^ Z.of_nat 3) with 1000.
  pose proof (Z.pow_pos_nonneg 2 (Z.max e 0) ltac:(lia) ltac:(lia)) as HP.
  pose proof (Z.pow_pos_nonneg 2 (Z.max (- e) 0) ltac:(lia) ltac:(lia)) as HD.
  set (P := 2 ^ Z.max e 0) in *. set (D := 2 ^ Z.max (- e) 0) in *.
  assert (HmP : 0 < Zpos m * P) by nia.
  destruct s.
  - change (10 ^ Z.of_nat (8 - 1 - 1)) with 1000000.
    change (Z.neg m) with (- Zpos m). nia.
  - change (10 ^ Z.of_nat (8 - 1 - 0)) with 10000000. nia.
Qed.

(** [{:6.2f}] keeps to its 6 columns exactly for the numbers strictly
    between -99.995 and 999.995. *)
Lemma format_f_6_2 x :
  length (format_f 6 2 x) = 6%nat <-> (-99.995 < Q_of_float x < 999.995)%Q.
Proof.
  destruct (Prim2SF x) as [s|s| |s m e] eqn:Hx.
  1-3: split; intros _;
    [unfold Q_of_float; rewrite Hx; split; reflexivity
    |unfold format_f; rewrite Hx; try destruct s; reflexivity].
  rewrite (format_f_finite_length 6 2 x s m e Hx) by lia.
  destruct (Q_of_float_compare x s m e (-99995) 1000 Hx) as [_ Hlo].
  destruct (Q_of_float_compare x s m e 999995 1000 Hx) as [Hhi _].
  change (-99.995)%Q with (-99995 # 1000)%Q.
  change (999.995)%Q with (999995 # 1000)%Q.
  rewrite Hlo, Hhi.
  change (10 ^ Z.of_nat 2) with 100.
  pose proof (Z.pow_pos_nonneg 2 (Z.max e 0) ltac:(lia) ltac:(lia)) as HP.
  pose proof (Z.pow_pos_nonneg 2 (Z.max (- e) 0) ltac:(lia) ltac:(lia)) as HD.
  set (P := 2 ^ Z.max e 0) in *. set (D := 2 ^ Z.max (- e) 0) in *.
  assert (HmP : 0 < Zpos m * P) by nia.
  destruct s.
  - change (10 ^ Z.of_nat (6 - 1 - 1)) with 10000.
    change (Z.neg m) with (- Zpos m). nia.
  - change (10 ^ Z.of_nat (6 - 1 - 0)) with 100000. nia.
Qed.

Lemma format_f_at_least width prec x : (width <= length (format_f width prec x))%nat.
Proof. unfold format_f. rewrite align_right_length. lia. Qed.

(** *** Line ends *)

Lemma line_count_app (a b : text) :
  line_count (a ++ b) = (line_count a + line_count b)%nat.
Proof. apply count_occ_app. Qed.

Lemma line_count_repeat c n : c <> newline -> line_count (repeat c n) = 0%nat.
Proof.
  intros Hc. induction n as [|n IH]; [reflexivity|].
  cbn [repeat]. unfold line_count in *. now rewrite count_occ_cons_neq.
Qed.

Lemma line_count_align_right width t : line_count (align_right width t) = line_count t.
Proof.
  unfold align_right, spaces. now rewrite line_count_app, line_count_repeat.
Qed.

Lemma digit_no_newline d : 0 <= d < 10 -> digit d <> newline.
Proof.
  intros Hd. unfold digit.
  assert (Hk : (Z.to_nat d < 10)%nat) by lia.
  revert Hk. generalize (Z.to_nat d). intros k Hk.
  do 10 (destruct k as [|k]; [discriminate|]). lia.
Qed.

Lemma line_count_decimal_digits fuel : forall n acc,
  line_count (decimal_digits fuel n acc) = line_count acc.
Proof.
  induction fuel as [|fuel IH]; intros n acc; cbn [decimal_digits]; [reflexivity|].
  assert (Hacc : line_count (digit (n mod 10) :: acc) = line_count acc).
  { unfold line_count. apply count_occ_cons_neq.
    apply digit_no_newline. apply Z.mod_pos_bound. lia. }
  destruct (n / 10 =? 0); [exact Hacc|]. now rewrite IH.
Qed.

Lemma line_count_decimal_text n : line_count (decimal_text n) = 0%nat.
Proof. apply line_count_decimal_digits. Qed.

Lemma line_count_format_d width n : line_count (format_d width n) = 0%nat.
Proof.
  unfold format_d. rewrite line_count_align_right.
  destruct (n <? 0); [|apply line_count_decimal_text].
  unfold line_count. rewrite count_occ_cons_neq by discriminate.
  apply line_count_decimal_text.
Qed.

Lemma line_count_fixed_point prec n : line_count (fixed_point prec n) = 0%nat.
Proof.
  unfold fixed_point. cbn zeta.
  set (ds := repeat "0"%char (S prec - length (decimal_text n)) ++ decimal_text n).
  assert (Hds : line_count ds = 0%nat).
  { unfold ds. rewrite line_count_app, line_count_repeat by discriminate.
    apply line_count_decimal_text. }
  rewrite <- (firstn_skipn (length ds - prec) ds) in Hds at 1.
  rewrite line_count_app in Hds. rewrite line_count_app.
  unfold line_count at 2. rewrite count_occ_cons_neq by discriminate.
  exact Hds.
Qed.

Lemma line_count_format_f width prec x : line_count (format_f width prec x) = 0%nat.
Proof.
  unfold format_f. rewrite line_count_align_right.
  destruct (Prim2SF x) as [s|s| |s m e];
    rewrite ?line_count_app, ?line_count_fixed_point; try destruct s; reflexivity.
Qed.

(** *** One entry *)

(** The length of an entry, field by field. *)
Lemma pqrformat_length (ln : AtomLine float) :
  length (pqrformat ln)
  = (22 + length (format_d 5 (atom_cnt ln)) + length (format_d 4 (residue_cnt ln))
     + length (format_f 8 3 (line_x ln)) + length (format_f 8 3 (line_y ln))
     + length (format_f 8 3 (line_z ln))
     + length (format_f 6 2 (line_charge ln)) + length (format_f 6 2 (line_radius ln)))%nat.
Proof.
  unfold pqrformat. rewrite !length_app.
  change (length (format_s 6 "ATOM")) with 6%nat.
  change (length (list_ascii_of_string " ")) with 1%nat.
  change (length (format_centred 4 "PRT")) with 4%nat.
  change (length (format_s 1 "A")) with 1%nat.
  change (length (format_s 3 "PTR")) with 3%nat.
  change (length (format_s 1 "0")) with 1%nat.
  change (length (list_ascii_of_string "   ")) with 3%nat.
  cbn [length]. lia.
Qed.

(** Fields are padded, never cut: an entry has 67 characters or more. *)
Lemma pqrformat_at_least (ln : AtomLine float) : (67 <= length (pqrformat ln))%nat.
Proof.
  rewrite pqrformat_length.
  pose proof (format_d_at_least 5 (atom_cnt ln)).
  pose proof (format_d_at_least 4 (residue_cnt ln)).
  pose proof (format_f_at_least 8 3 (line_x ln)).
  pose proof (format_f_at_least 8 3 (line_y ln)).
  pose proof (format_f_at_least 8 3 (line_z ln)).
  pose proof (format_f_at_least 6 2 (line_charge ln)).
  pose proof (format_f_at_least 6 2 (line_radius ln)).
  lia.
Qed.

(** X17: the string [makeAtomEntry] returns is never shorter than the 67
    characters of the column layout (fields are padded, never cut), and it
    has exactly 67 characters, so that every field sits in its columns,
    exactly when the counter lies between -999 and 9999, every coordinate
    strictly between -999.9995 and 9999.9995, and charge and radius strictly
    between -99.995 and 999.995 ([nan] and the infinities fit as well). *)
Theorem makeAtomEntry_text_width counter pos q r (st : state float) :
  exists ln,
    fst (makeAtomEntry counter pos q r st) = Ok [ln]
    /\ (67 <= length (pqrformat ln))%nat
    /\ (length (pqrformat ln) = 67%nat
        <-> -999 <= counter <= 9999
            /\ (-999.9995 < Q_of_float (vx pos) < 9999.9995)%Q
            /\ (-999.9995 < Q_of_float (vy pos) < 9999.9995)%Q
            /\ (-999.9995 < Q_of_float (vz pos) < 9999.9995)%Q
            /\ (-99.995 < Q_of_float q < 999.995)%Q
            /\ (-99.995 < Q_of_float r < 999.995)%Q).
Proof.
  eexists. split; [reflexivity|].
  rewrite pqrformat_length.
  cbn [atom_cnt residue_cnt line_x line_y line_z line_charge line_radius].
  pose proof (format_d_at_least 5 counter) as Ha.
  pose proof (format_d_at_least 4 counter) as Hr.
  pose proof (format_f_at_least 8 3 (vx pos)) as Hx.
  pose proof (format_f_at_least 8 3 (vy pos)) as Hy.
  pose proof (format_f_at_least 8 3 (vz pos)) as Hz.
  pose proof (format_f_at_least 6 2 q) as Hq.
  pose proof (format_f_at_least 6 2 r) as Hrad.
  split; [lia|].
  rewrite <- !format_f_8_3, <- !format_f_6_2.
  pose proof (format_d_length 5 counter ltac:(lia)) as Hd5.
  pose proof (format_d_length 4 counter ltac:(lia)) as Hd4.
  change (10 ^ Z.of_nat (5 - 1)) with 10000 in Hd5.
  change (10 ^ Z.of_nat 5) with 100000 in Hd5.
  change (10 ^ Z.of_nat (4 - 1)) with 1000 in Hd4.
  change (10 ^ Z.of_nat 4) with 10000 in Hd4.
  split.
  - intros Hlen.
    assert (H5 : length (format_d 5 counter) = 5%nat) by lia.
    assert (H4 : length (format_d 4 counter) = 4%nat) by lia.
    apply Hd4 in H4. repeat split; lia.
  - intros (Hc & -> & -> & -> & -> & ->).
    assert (H5 : length (format_d 5 counter) = 5%nat) by (apply Hd5; lia).
    assert (H4 : length (format_d 4 counter) = 4%nat) by (apply Hd4; lia).
    lia.
Qed.

Lemma line_count_pqrformat (ln : AtomLine float) : line_count (pqrformat ln) = 1%nat.
Proof.
  unfold pqrformat.
  rewrite !line_count_app, !line_count_format_d, !line_count_format_f.
  reflexivity.
Qed.

(** X18: the text of a fibril has one line per entry: every entry ends in
    its line end and has no other, so the text a builder returns for the
    entries [s] holds [length s] line ends, and it is never shorter than 67
    characters per entry. *)
Theorem pqr_text_lines (s : pqr float) :
  line_count (pqr_text s) = length s
  /\ (67 * length s <= length (pqr_text s))%nat
  /\ (forall ln, last (pqrformat ln) = Some newline)
  /\ (forall s', pqr_text (s ++ s') = pqr_text s ++ pqr_text s').
Proof.
  split; [|split; [|split]].
  - induction s as [|ln rest IH]; [reflexivity|].
    unfold pqr_text in *. cbn [map concat length].
    now rewrite line_count_app, line_count_pqrformat, IH.
  - induction s as [|ln rest IH]; [cbn; lia|].
    unfold pqr_text in *. cbn [map concat length]. rewrite length_app.
    pose proof (pqrformat_at_least ln). lia.
  - intros ln. unfold pqrformat. rewrite !app_assoc. apply last_snoc.
  - intros s'. unfold pqr_text. now rewrite map_app, concat_app.
Qed.

End PqrText.

(** The first two beads of the notebook's fibril, as the text Python gives
    (the line end of each entry left out). *)
Example notebook_fibril_text :
  match fst (makeDipoleFibril notebook 2 1%positive x_axis example_state) with
  | Ok s => map (fun ln => string_of_list_ascii (removelast (pqrformat ln))) s
  | Raise _ => []
  end
  = [ "ATOM      1 PRT APTR A   10      0.000   0.000   0.000  2.00 15.00";
      "ATOM      2 PRT APTR A   20      1.561   0.000   0.000 10.00  1.00";
      "ATOM      3 PRT APTR A   30     -1.561   0.000   0.000-10.00  1.00";
      "ATOM      2 PRT APTR A   20     30.000   0.000   0.000  2.00 15.00";
      "ATOM      3 PRT APTR A   30     31.561   0.000   0.000 10.00  1.00";
      "ATOM      4 PRT APTR A   40     28.439   0.000   0.000-10.00  1.00" ]%string.
Proof. vm_compute. reflexivity. Qed.

(** A fibril from [(-20, 5.5, 1000)] along [(1, -2, 0.5)]. *)
Example skew_fibril_text :
  match fst (makeDipoleFibril notebook 2 1%positive (V3 1 (-2) 0.5)%float
               (St (<[1%positive := (V3 (-20) 5.5 1000)%float]> ∅) [])) with
  | Ok s => map (fun ln => string_of_list_ascii (removelast (pqrformat ln))) s
  | Raise _ => []
  end
  = [ "ATOM      1 PRT APTR A   10    -20.000   5.5001000.000  2.00 15.00";
      "ATOM      2 PRT APTR A   20    -19.319   4.1371000.341 10.00  1.00";
      "ATOM      3 PRT APTR A   30    -20.681   6.863 999.659-10.00  1.00";
      "ATOM      2 PRT APTR A   20     -6.907 -20.6861006.547  2.00 15.00";
      "ATOM      3 PRT APTR A   30     -6.225 -22.0491006.887 10.00  1.00";
      "ATOM      4 PRT APTR A   40     -7.588 -19.3231006.206-10.00  1.00" ]%string.
Proof. vm_compute. reflexivity. Qed.

(** With the notebook's parameters a fibril from the origin along x keeps
    to the columns for 334 beads; the 335th, at x = 10020, does not. *)
Example long_fibril_leaves_columns :
  match fst (makeMonopoleFibril notebook 335 1%positive x_axis example_state) with
  | Ok s => map (fun ln => length (pqrformat ln)) s
  | Raise _ => []
  end
  = repeat 67%nat 334 ++ [68%nat].
Proof. vm_compute. reflexivity. Qed.


(** * With and without rounding

    What the code computes step by step, in every arithmetic, and the closed
    forms these steps add up to when nothing is rounded. *)

Section StepByStep.
Context {F : Type} `{Arith F}.
Variable g : Globals F.





End StepByStep.

(** ** One unit charge, in binary64 *)





Module Arithmetics.
Import Exact ExactShapes ExactFacts AlignmentFacts.
Local Open Scope R_scope.









End Arithmetics.

(** ** Runs in binary64 that rounding decides *)





(** The other failures of a loader: a single line without column 2, and a
    gzip stream that was cut short, under a name numpy opens with [gzip] and
    under another; and the extensions [os.path.splitext] gives. *)
Example getSystemDipoleMoment_failures :
  getSystemDipoleMoment {[ "short.dat"%string := Table [ [0; 10]%float ] ]} "short.dat"
    = Raise (ValueError "invalid column index")
  /\ getSystemDipoleMoment
       ({[ "system_dipole_moment.dat.gz"%string := CutGzip ]} : filesystem float)
       "system_dipole_moment.dat.gz"
     = Raise EOFError
  /\ getSystemDipoleMoment
       ({[ "system_dipole_moment.dat"%string := CutGzip ]} : filesystem float)
       "system_dipole_moment.dat"
     = Raise UnicodeDecodeError
  /\ getBareDipoleMoment ({[ "out.json"%string := CutGzip ]} : filesystem float) "out.json"
     = Raise UnicodeDecodeError
  /\ map extension [ "mu_x.dat.gz"; ".gz"; "run/..gz"; "a..gz"; "a.b/c"; "a.b/c.xz";
                      "x.tar.bz2"; "x."; "x.GZ"; "run.1/mu_x.dat.gz"; "a/b.gz/c" ]%string
     = [ ".gz"; ""; ""; ".gz"; ""; ".xz"; ".bz2"; "."; ".GZ"; ".gz"; "" ]%string.
Proof. vm_compute. repeat split; reflexivity. Qed.
